(** * pdf-stuff: hiding an image in a PDF as an unreferenced object

    A shallow embedding of the two scripts of the repository,

    - [index.js]          (the embedder, function [embedImageInPDF]) and
    - [final_extract.js]  (the extractor, a top-level script),

    together with the fragment of the JavaScript / Node.js runtime they
    rely on: [Buffer.indexOf], [Buffer.subarray], [Buffer.concat], the
    global regular expression [/(\d+) 0 obj/g], [parseInt], Number
    addition and comparison, and zlib's [deflateSync] / [inflateSync].

    Buffers are lists of bytes.  Offsets are [Z], because the scripts
    compute with the sentinel [-1] that [indexOf] returns.

    Outside the model: the console output other than the line that tells
    one outcome from another, failures of the file system (every read and
    write succeeds), and the resource limits of the runtime (the longest
    Buffer or string it can hold). *)

From Stdlib Require Import ZArith List Bool Lia.
From Stdlib Require Import Strings.Byte.
From Stdlib Require Strings.String.
Import ListNotations String.StringSyntax.
Delimit Scope string_scope with string.
Local Open Scope Z_scope.

(* ================================================================== *)
(** * Part I.  Definitions                                             *)
(* ================================================================== *)

(** ** Bytes and byte literals *)

Definition buffer := list byte.

(** The bytes of an ASCII literal (what [Buffer.from(s, 'latin1')] and the
    default UTF-8 encoding of an ASCII string both give). *)
Definition bytes (s : String.string) : buffer := String.list_byte_of_string s.
Arguments bytes s%_string.

(** ["\n"] *)
Definition LF : byte := x0a.

Definition code (b : byte) : Z := Z.of_N (Byte.to_N b).

(** [len b] is [b.length]. *)
Definition len (b : buffer) : Z := Z.of_nat (length b).

Module JS.

(** ** Numbers

    A JavaScript Number is an IEEE-754 double.  The scripts only ever
    build non-negative integer-valued Numbers (parsed digit runs, buffer
    lengths, indices, and sums of those) and [Infinity] (a digit run too
    long for a double).  [Int n] is the double whose value is the integer
    [n]; every [Int n] that the functions below build is representable. *)
Inductive number : Type :=
| Int (n : Z)
| Infinity.

(** Round a non-negative integer to the nearest double, ties to even.
    Integers below [2^53] are exact.  Above, the significand keeps 53
    bits: the integer is a multiple [q] of [2^e] plus a remainder [r],
    and the remainder decides the direction.  A result of [2^1024] or
    more is [Infinity]. *)
Definition round_double (m : Z) : number :=
  if m <? 2 ^ 53 then Int m
  else
    let e := Z.log2 m - 52 in
    let q := m / 2 ^ e in
    let r := m mod 2 ^ e in
    let half := 2 ^ (e - 1) in
    let q' := if r <? half then q
              else if half <? r then q + 1
              else if Z.even q then q else q + 1 in
    let v := q' * 2 ^ e in
    if 2 ^ 1024 <=? v then Infinity else Int v.

(** [a + b] on the Numbers above: the exact sum, rounded. *)
Definition add (a b : number) : number :=
  match a, b with
  | Int x, Int y => round_double (x + y)
  | _, _ => Infinity
  end.

(** [a > b] *)
Definition gt (a b : number) : bool :=
  match a, b with
  | Int x, Int y => y <? x
  | Infinity, Int _ => true
  | _, Infinity => false
  end.

(** ** Decimal digits *)

(** The character class [\d] (no [u] flag needed: ASCII digits only). *)
Definition is_digit (b : byte) : bool := (48 <=? code b) && (code b <=? 57).

Definition digit_value (b : byte) : Z := code b - 48.

Definition digit_byte (d : Z) : byte :=
  match d with
  | 0 => x30 | 1 => x31 | 2 => x32 | 3 => x33 | 4 => x34
  | 5 => x35 | 6 => x36 | 7 => x37 | 8 => x38 | _ => x39
  end.

(** The mathematical integer a run of digits denotes in radix 10. *)
Definition decimal_value (ds : buffer) : Z :=
  fold_left (fun acc b => acc * 10 + digit_value b) ds 0.

(** [parseInt(ds, 10)] on a non-empty run of digits (all the embedder
    passes, since the run is the capture group [(\d+)]): the integer the
    digits denote, as a Number. *)
Definition parseInt (ds : buffer) : number := round_double (decimal_value ds).

(** The decimal digits of a non-negative integer, most significant
    first, no leading zero.  [fuel] bounds the number of digits. *)
Fixpoint decimal_digits (fuel : nat) (n : Z) (acc : buffer) : buffer :=
  match fuel with
  | O => acc
  | S fuel' =>
      let acc' := digit_byte (n mod 10) :: acc in
      if n <? 10 then acc' else decimal_digits fuel' (n / 10) acc'
  end.

Definition decimal (n : Z) : buffer :=
  decimal_digits (S (Z.to_nat (Z.log2 n))) n [].

(** ** Buffers *)

(** Does [l] begin with [needle]? *)
Fixpoint starts_with (needle l : buffer) : bool :=
  match needle, l with
  | [], _ => true
  | _ :: _, [] => false
  | a :: needle', b :: l' => Byte.eqb a b && starts_with needle' l'
  end.

(** Leftmost position of [needle] in [l], where [l] is the part of the
    buffer from index [i] on; [-1] when there is none. *)
Fixpoint search (needle l : buffer) (i : Z) : Z :=
  if starts_with needle l then i
  else match l with
       | [] => -1
       | _ :: l' => search needle l' (i + 1)
       end.

(** Node's [IndexOfOffset] for a forward search: where the search starts,
    or [-1] when it cannot succeed.  A negative [byteOffset] counts from
    the end of the buffer. *)
Definition IndexOfOffset (length offset needle_length : Z) : Z :=
  if offset <? 0 then
    if 0 <=? offset + length then length + offset else 0
  else
    if offset + needle_length <=? length then offset
    else if needle_length =? 0 then length
    else -1.

(** [buf.indexOf(value, byteOffset)] for a string or Buffer [value]; an
    absent [byteOffset] is [0].  (Node first clamps [byteOffset] to the
    range of a 32-bit integer.  The offsets the scripts pass are indices
    into what [fs.readFileSync] returned, which is shorter than [2^31]
    bytes, so that step changes nothing and is left out.) *)
Definition indexOf (buf value : buffer) (byteOffset : Z) : Z :=
  let haystack_length := len buf in
  let needle_length := len value in
  let opt_offset := IndexOfOffset haystack_length byteOffset needle_length in
  if needle_length =? 0 then opt_offset
  else if haystack_length =? 0 then -1
  else if opt_offset <=? -1 then -1
  else if haystack_length <? needle_length + opt_offset then -1
  else search value (skipn (Z.to_nat opt_offset) buf) opt_offset.

(** A relative index of [subarray], clamped into [0 .. length]. *)
Definition clamp (length rel : Z) : Z :=
  if rel <? 0 then Z.max (length + rel) 0 else Z.min rel length.

(** [buf.subarray(start, end)] *)
Definition subarray (buf : buffer) (start end_ : Z) : buffer :=
  let b := clamp (len buf) start in
  let e := clamp (len buf) end_ in
  firstn (Z.to_nat (Z.max (e - b) 0)) (skipn (Z.to_nat b) buf).

(** [buf.subarray(start)]: [end] defaults to [buf.length]. *)
Definition subarray_from (buf : buffer) (start : Z) : buffer :=
  subarray buf start (len buf).

(** [buf[i]]: [None] is [undefined]. *)
Definition at_index (buf : buffer) (i : nat) : option byte := nth_error buf i.

(** ** The regular expression [/(\d+) 0 obj/g] *)

Definition obj_literal : buffer := bytes " 0 obj".

(** Length of the longest run of digits at the head of [l]. *)
Fixpoint digit_run (l : buffer) : nat :=
  match l with
  | b :: l' => if is_digit b then S (digit_run l') else O
  | [] => O
  end.

(** [\d+] is greedy and backtracks: the capture of [k] digits is tried
    first for the longest run, then for shorter ones, down to one digit. *)
Fixpoint try_capture (k : nat) (l : buffer) : option nat :=
  match k with
  | O => None
  | S k' => if starts_with obj_literal (skipn k l) then Some k
            else try_capture k' l
  end.

(** The pattern anchored at the head of [l]: the capture group and the
    length of the whole match. *)
Definition match_here (l : buffer) : option (buffer * nat) :=
  match try_capture (digit_run l) l with
  | Some k => Some (firstn k l, (k + 6)%nat)
  | None => None
  end.

(** Leftmost match in [l], the part of the subject from index [i] on:
    the capture group and the index just after the match. *)
Fixpoint exec_from (l : buffer) (i : nat) : option (buffer * nat) :=
  match match_here l with
  | Some (group, n) => Some (group, (i + n)%nat)
  | None => match l with
            | [] => None
            | _ :: l' => exec_from l' (S i)
            end
  end.

(** [objRegex.exec(str)] with [objRegex.lastIndex = lastIndex]: [None] is
    [null]; otherwise [match[1]] and the new [lastIndex]. *)
Definition exec (str : buffer) (lastIndex : nat) : option (buffer * nat) :=
  if (length str <? lastIndex)%nat then None
  else exec_from (skipn lastIndex str) lastIndex.

End JS.

(** ** What the scripts take from their runtime

    zlib is an external library, and the conversion of a Number to a
    string (in a template literal) is only needed on the integers that are
    exact as doubles; both are parameters of the model.  [inflateSync]
    returns [None] where Node's throws. *)
Class Runtime : Type := {
  deflateSync : buffer -> buffer;
  inflateSync : buffer -> option buffer;
  Number_toString : JS.number -> buffer
}.

(** The template literal prints an integer up to [2^53] in decimal. *)
Class NumberLaws `{Runtime} : Prop := {
  toString_decimal :
    forall n, 0 <= n <= 2 ^ 53 -> Number_toString (JS.Int n) = JS.decimal n
}.

(** zlib with default options: inflating what was deflated gives the
    input back, and a deflated stream begins with the byte [0x78]. *)
Class ZlibLaws `{Runtime} : Prop := {
  inflate_deflate : forall x, inflateSync (deflateSync x) = Some x;
  deflate_header : forall x, JS.at_index (deflateSync x) 0 = Some x78
}.

(** ** index.js: the embedder *)

Module Embedder.
Section WithRuntime.
Context `{Runtime}.

(** The [while] loop of lines 52-55; [fuel] bounds the iterations, and
    every iteration moves [lastIndex] forward. *)
Fixpoint maxObjNum_loop (fuel : nat) (str : buffer) (lastIndex : nat)
    (maxObjNum : JS.number) : JS.number :=
  match fuel with
  | O => maxObjNum
  | S fuel' =>
      match JS.exec str lastIndex with
      | None => maxObjNum
      | Some (match1, lastIndex') =>
          let objNum := JS.parseInt match1 in
          maxObjNum_loop fuel' str lastIndex'
            (if JS.gt objNum maxObjNum then objNum else maxObjNum)
      end
  end.

(** [maxObjNum] after the loop (lines 49-55). *)
Definition maxObjNum (pdfData : buffer) : JS.number :=
  maxObjNum_loop (S (length pdfData)) pdfData O (JS.Int 0).

(** Line 56. *)
Definition newObjNum (pdfData : buffer) : JS.number :=
  JS.add (maxObjNum pdfData) (JS.Int 1).

(** Line 63. *)
Definition objHeader (newObjNum : JS.number) (compressedImage : buffer)
    : buffer :=
  Number_toString newObjNum ++ bytes " 0 obj" ++ [LF]
    ++ bytes "<< /Length " ++ Number_toString (JS.Int (len compressedImage))
    ++ bytes " /Filter /FlateDecode >>" ++ [LF]
    ++ bytes "stream" ++ [LF].

(** Line 64. *)
Definition objFooter : buffer :=
  [LF] ++ bytes "endstream" ++ [LF] ++ bytes "endobj" ++ [LF].

(** Lines 67-71. *)
Definition newObject (newObjNum : JS.number) (compressedImage : buffer)
    : buffer :=
  objHeader newObjNum compressedImage ++ compressedImage ++ objFooter.

(** Line 77. *)
Definition xrefPos (pdfData : buffer) : Z :=
  JS.indexOf pdfData (bytes "xref") 0.

(** Lines 84-88. *)
Definition newPdfData (pdfData newObject : buffer) (xrefPos : Z) : buffer :=
  JS.subarray pdfData 0 xrefPos ++ newObject ++ JS.subarray_from pdfData xrefPos.

(** How a call of [embedImageInPDF] ends. *)
Inductive result : Type :=
| Thrown            (** [Error("XREF table not found - invalid PDF format")],
                        thrown before anything is written *)
| Written (newObjNum : JS.number) (output : buffer).
                    (** [output] written to [outputPath], [newObjNum] returned *)

(** [embedImageInPDF], on the contents of the two files it reads. *)
Definition embedImageInPDF (pdfData imageData : buffer) : result :=
  let compressedImage := deflateSync imageData in
  let newObjNum := newObjNum pdfData in
  let newObject := newObject newObjNum compressedImage in
  let xrefPos := xrefPos pdfData in
  if xrefPos =? -1 then Thrown
  else Written newObjNum (newPdfData pdfData newObject xrefPos).

End WithRuntime.
End Embedder.

(** ** final_extract.js: the extractor *)

Module Extractor.

(** The lines of the console output that tell the outcomes apart. *)
Inductive message : Type :=
| CouldNotFindBoundaries   (** "Could not find Object 111 boundaries" *)
| ZlibDetected             (** "Zlib compressed stream detected (FlateDecode filter)" *)
| ValidJpegRecovered       (** "Valid JPEG image recovered!" *)
| NotAJpeg                 (** "Recovered data is not a JPEG image" *)
| DecompressionFailed      (** "Decompression failed:" *)
| NotZlibCompressed.       (** "Data is not zlib compressed" *)

(** How the process ends. *)
Inductive termination : Type :=
| Completed                (** the script ran to its end: exit code 0 *)
| Exit (exitCode : Z)      (** [process.exit(exitCode)] *)
| UncaughtTypeError.       (** a property read of [undefined], not caught *)

Record run : Type := {
  console : list message;
  files : list (String.string * buffer);   (** [fs.writeFileSync] calls, in order *)
  ending : termination
}.

Section WithRuntime.
Context `{Runtime}.

(** Line 36. *)
Definition obj111Start (pdfData : buffer) : Z :=
  JS.indexOf pdfData (bytes "111 0 obj") 0.

(** Line 37. *)
Definition streamStart (pdfData : buffer) (obj111Start : Z) : Z :=
  JS.indexOf pdfData (bytes "stream" ++ [LF]) obj111Start + 7.

(** Line 38. *)
Definition endstreamPos (pdfData : buffer) (streamStart : Z) : Z :=
  JS.indexOf pdfData ([LF] ++ bytes "endstream") streamStart.

(** Lines 60-128, on the isolated stream bytes. *)
Definition decode (streamData : buffer) : run :=
  if match JS.at_index streamData 0 with
     | Some b => Byte.eqb b x78
     | None => false
     end
  then
    match inflateSync streamData with
    | Some decompressed =>
        if match JS.at_index decompressed 0, JS.at_index decompressed 1 with
           | Some b0, Some b1 => Byte.eqb b0 xff && Byte.eqb b1 xd8
           | _, _ => false
           end
        then {| console := [ZlibDetected; ValidJpegRecovered];
                files := [("final_recovered.jpg"%string, decompressed)];
                ending := Completed |}
        else {| console := [ZlibDetected; NotAJpeg];
                files := [("mystery_data.bin"%string, decompressed)];
                ending := Completed |}
    | None =>
        {| console := [ZlibDetected; DecompressionFailed];
           files := [("raw_stream.bin"%string, streamData)];
           ending := Completed |}
    end
  else
    (* line 121 evaluates [streamData[0].toString(16)] before line 126 writes *)
    match JS.at_index streamData 0 with
    | None => {| console := [NotZlibCompressed];
                 files := [];
                 ending := UncaughtTypeError |}
    | Some _ => {| console := [NotZlibCompressed];
                   files := [("raw_stream.bin"%string, streamData)];
                   ending := Completed |}
    end.

(** The condition of line 41. *)
Definition boundaries_missing (pdfData : buffer) : bool :=
  let obj111Start := obj111Start pdfData in
  let streamStart := streamStart pdfData obj111Start in
  let endstreamPos := endstreamPos pdfData streamStart in
  (obj111Start =? -1) || (streamStart =? -1) || (endstreamPos =? -1).

(** Line 52. *)
Definition streamData (pdfData : buffer) : buffer :=
  let obj111Start := obj111Start pdfData in
  let streamStart := streamStart pdfData obj111Start in
  let endstreamPos := endstreamPos pdfData streamStart in
  JS.subarray pdfData streamStart endstreamPos.

(** The whole script, on the contents of [modified.pdf]. *)
Definition final_extract (pdfData : buffer) : run :=
  if boundaries_missing pdfData
  then {| console := [CouldNotFindBoundaries];
          files := [];
          ending := Exit 1 |}
  else decode (streamData pdfData).

End WithRuntime.
End Extractor.

(** ** A runtime to evaluate the scripts with

    A store-only codec that keeps the two-byte zlib header [78 9c] in
    front of the raw bytes, and decimal printing of integers. *)
Module Stored.

Definition deflate (x : buffer) : buffer := x78 :: x9c :: x.

Definition inflate (x : buffer) : option buffer :=
  match x with
  | a :: b :: t => if Byte.eqb a x78 && Byte.eqb b x9c then Some t else None
  | _ => None
  end.

Definition toString (n : JS.number) : buffer :=
  match n with
  | JS.Int n => JS.decimal n
  | JS.Infinity => bytes "Infinity"
  end.

#[export] Instance runtime : Runtime := {|
  deflateSync := deflate;
  inflateSync := inflate;
  Number_toString := toString
|}.

End Stored.

(** ** Sample inputs *)

(** A small PDF of the classic structure (body, [xref] table, trailer)
    whose only object has the number written in [n]. *)
Definition classic_pdf (n : String.string) : buffer :=
  bytes "%PDF-1.4" ++ [LF]
    ++ bytes n ++ bytes " 0 obj" ++ [LF]
    ++ bytes "<< /Type /Catalog >>" ++ [LF]
    ++ bytes "endobj" ++ [LF]
    ++ bytes "xref" ++ [LF]
    ++ bytes "0 2" ++ [LF]
    ++ bytes "0000000000 65535 f " ++ [LF]
    ++ bytes "0000000009 00000 n " ++ [LF]
    ++ bytes "trailer" ++ [LF]
    ++ bytes "<< /Size 2 /Root 1 0 R >>" ++ [LF]
    ++ bytes "startxref" ++ [LF]
    ++ bytes "45" ++ [LF]
    ++ bytes "%%EOF" ++ [LF].
Arguments classic_pdf n%_string.

(** The first bytes of a JPEG file: [FF D8 FF E0 00 10]. *)
Definition jpeg_payload : buffer := [xff; xd8; xff; xe0; x00; x10].

(** ** Vocabulary of the statements *)

(** [needle] occurs in [buf] at index [p]. *)
Definition occurs_at (needle buf : buffer) (p : nat) : Prop :=
  firstn (length needle) (skipn p buf) = needle.

(** [p] is the first index at or after [from] where [needle] occurs. *)
Definition first_occurrence (needle buf : buffer) (from p : nat) : Prop :=
  (from <= p)%nat /\ occurs_at needle buf p /\
  forall q, (from <= q < p)%nat -> ~ occurs_at needle buf q.

(** [needle] occurs nowhere in [buf] at or after [from]. *)
Definition absent_from (needle buf : buffer) (from : nat) : Prop :=
  forall q, (from <= q)%nat -> ~ occurs_at needle buf q.

(** A run of [k >= 1] digits at index [a], followed by [" 0 obj"]: what
    the pattern "one or more digits followed by ' 0 obj'" matches. *)
Definition numbered_at (s : buffer) (a k : nat) : Prop :=
  (1 <= k)%nat /\
  forallb JS.is_digit (firstn k (skipn a s)) = true /\
  occurs_at JS.obj_literal s (a + k).

(** The object number such a run denotes. *)
Definition object_number (s : buffer) (a k : nat) : Z :=
  JS.decimal_value (firstn k (skipn a s)).

(* ================================================================== *)
(** * Part II.  Facts about the runtime fragment                       *)
(* ================================================================== *)

Module JSFacts.
Import JS.

Lemma byte_eqb_eq (a b : byte) : Byte.eqb a b = true <-> a = b.
Proof. split; [apply byte_dec_bl | apply byte_dec_lb]. Qed.

Lemma byte_eqb_refl (a : byte) : Byte.eqb a a = true.
Proof. now apply byte_eqb_eq. Qed.

Lemma len_app (a b : buffer) : len (a ++ b) = len a + len b.
Proof. unfold len. rewrite length_app. lia. Qed.

Lemma len_nonneg (a : buffer) : 0 <= len a.
Proof. unfold len. lia. Qed.

(** *** Searching *)

Lemma starts_with_iff (needle : buffer) :
  forall l, starts_with needle l = true <-> firstn (length needle) l = needle.
Proof.
  induction needle as [|a needle IH]; intros [|b l]; simpl; try tauto.
  - split; discriminate.
  - rewrite andb_true_iff, byte_eqb_eq, IH. split.
    + intros [-> ->]. reflexivity.
    + intros E. injection E as -> E. auto.
Qed.

Lemma occurs_at_0 (needle l : buffer) :
  occurs_at needle l 0 <-> starts_with needle l = true.
Proof. unfold occurs_at. simpl. symmetry. apply starts_with_iff. Qed.

Lemma occurs_at_S (needle l : buffer) (b : byte) (k : nat) :
  occurs_at needle (b :: l) (S k) <-> occurs_at needle l k.
Proof. reflexivity. Qed.

Lemma occurs_at_skipn (needle buf : buffer) (off k : nat) :
  occurs_at needle (skipn off buf) k <-> occurs_at needle buf (off + k).
Proof. unfold occurs_at. rewrite skipn_skipn, Nat.add_comm. reflexivity. Qed.

Lemma occurs_at_bound (needle buf : buffer) (p : nat) :
  needle <> [] -> occurs_at needle buf p ->
  (p + length needle <= length buf)%nat.
Proof.
  intros Hne Hocc. unfold occurs_at in Hocc.
  assert (L : length (firstn (length needle) (skipn p buf)) = length needle)
    by now rewrite Hocc.
  rewrite length_firstn, length_skipn in L.
  destruct needle; [congruence|]. cbn [length] in *. lia.
Qed.

(** An occurrence is a decomposition of the buffer. *)
Lemma occurs_at_app (needle pre post : buffer) :
  occurs_at needle (pre ++ needle ++ post) (length pre).
Proof.
  unfold occurs_at. rewrite skipn_app, skipn_all, Nat.sub_diag. simpl.
  rewrite firstn_app, firstn_all, Nat.sub_diag. simpl. apply app_nil_r.
Qed.

Lemma search_inv (needle : buffer) :
  forall l i,
    (search needle l i = -1 /\ (0 <= i -> absent_from needle l 0)) \/
    (exists k, search needle l i = i + Z.of_nat k /\ first_occurrence needle l 0 k).
Proof.
  induction l as [|b l IH]; intros i; simpl.
  - destruct (starts_with needle []) eqn:E.
    + right. exists O. split; [lia|]. split; [lia|]. split.
      * now apply occurs_at_0.
      * intros q Hq. lia.
    + left. split; [reflexivity|]. intros _ q _ Hocc.
      assert (needle = []) as ->.
      { unfold occurs_at in Hocc. rewrite skipn_nil, firstn_nil in Hocc. auto. }
      discriminate.
  - destruct (starts_with needle (b :: l)) eqn:E.
    + right. exists O. split; [lia|]. split; [lia|]. split.
      * now apply occurs_at_0.
      * intros q Hq. lia.
    + destruct (IH (i + 1)) as [[Hs Ha] | [k [Hs [_ [Hocc Hmin]]]]].
      * left. split; [assumption|]. intros Hi [|q] _ Hocc.
        -- apply occurs_at_0 in Hocc. congruence.
        -- apply occurs_at_S in Hocc. revert Hocc. apply Ha; lia.
      * right. exists (S k). split; [lia|]. split; [lia|]. split.
        -- now apply occurs_at_S.
        -- intros [|q] Hq Hq'.
           ++ apply occurs_at_0 in Hq'. congruence.
           ++ apply occurs_at_S in Hq'. revert Hq'. apply Hmin. lia.
Qed.

Lemma first_occurrence_unique (needle buf : buffer) (from p q : nat) :
  first_occurrence needle buf from p -> first_occurrence needle buf from q ->
  p = q.
Proof.
  intros (Hp & Op & Mp) (Hq & Oq & Mq).
  destruct (Nat.lt_trichotomy p q) as [L | [E | L]]; auto.
  - exfalso. apply (Mq p); auto.
  - exfalso. apply (Mp q); auto.
Qed.

(** What [indexOf] returns, for a non-empty needle and a start offset
    that is not negative. *)
Lemma indexOf_inv (buf needle : buffer) (from : nat) :
  needle <> [] ->
  (indexOf buf needle (Z.of_nat from) = -1 /\ absent_from needle buf from) \/
  (exists p, indexOf buf needle (Z.of_nat from) = Z.of_nat p /\
             first_occurrence needle buf from p).
Proof.
  intros Hne. unfold indexOf, IndexOfOffset.
  assert (Hn : 0 < len needle).
  { unfold len. destruct needle; [congruence | simpl; lia]. }
  assert (Habs : len buf < Z.of_nat from + len needle ->
                 absent_from needle buf from).
  { intros Hlt q Hq Hocc. apply occurs_at_bound in Hocc; auto.
    unfold len in *. lia. }
  destruct (Z.ltb_spec (Z.of_nat from) 0); [lia|].
  destruct (Z.eqb_spec (len needle) 0); [lia|].
  destruct (Z.leb_spec (Z.of_nat from + len needle) (len buf)).
  - destruct (Z.eqb_spec (len buf) 0); [lia|].
    destruct (Z.leb_spec (Z.of_nat from) (-1)); [lia|].
    destruct (Z.ltb_spec (len buf) (len needle + Z.of_nat from)); [lia|].
    rewrite Nat2Z.id.
    destruct (search_inv needle (skipn from buf) (Z.of_nat from))
      as [[Hs Ha] | [k [Hs (_ & Hocc & Hmin)]]].
    + left. split; [assumption|]. intros q Hq Hocc.
      apply (Ha ltac:(lia) (q - from)%nat ltac:(lia)).
      apply occurs_at_skipn. now replace (from + (q - from))%nat with q by lia.
    + right. exists (from + k)%nat. split; [lia|]. split; [lia|]. split.
      * now apply occurs_at_skipn.
      * intros q Hq Hq'. apply (Hmin (q - from)%nat ltac:(lia)).
        apply occurs_at_skipn.
        now replace (from + (q - from))%nat with q by lia.
  - left. split; [|apply Habs; lia].
    destruct (Z.eqb_spec (len buf) 0); [reflexivity|].
    destruct (Z.leb_spec (-1) (-1)); [reflexivity | lia].
Qed.

Lemma indexOf_first (buf needle : buffer) (from p : nat) :
  needle <> [] -> first_occurrence needle buf from p ->
  indexOf buf needle (Z.of_nat from) = Z.of_nat p.
Proof.
  intros Hne Hp.
  destruct (indexOf_inv buf needle from Hne) as [[_ Ha] | [q [-> Hq]]].
  - destruct Hp as (Hle & Hocc & _). exfalso. exact (Ha p Hle Hocc).
  - f_equal. eapply first_occurrence_unique; eassumption.
Qed.

Lemma indexOf_absent (buf needle : buffer) (from : nat) :
  needle <> [] -> absent_from needle buf from ->
  indexOf buf needle (Z.of_nat from) = -1.
Proof.
  intros Hne Ha.
  destruct (indexOf_inv buf needle from Hne) as [[E _] | [q [_ Hq]]]; auto.
  destruct Hq as (Hle & Hocc & _). exfalso. exact (Ha q Hle Hocc).
Qed.

Lemma indexOf_minus1_absent (buf needle : buffer) (from : nat) :
  needle <> [] -> indexOf buf needle (Z.of_nat from) = -1 ->
  absent_from needle buf from.
Proof.
  intros Hne E.
  destruct (indexOf_inv buf needle from Hne) as [[_ Ha] | [q [E' _]]]; auto.
  rewrite E in E'. lia.
Qed.

(** *** Slicing *)

Lemma subarray_in_range (buf : buffer) (a b : nat) :
  (a <= b <= length buf)%nat ->
  subarray buf (Z.of_nat a) (Z.of_nat b) = firstn (b - a) (skipn a buf).
Proof.
  intros Hab. unfold subarray, clamp, len.
  destruct (Z.ltb_spec (Z.of_nat a) 0); [lia|].
  destruct (Z.ltb_spec (Z.of_nat b) 0); [lia|].
  rewrite !Z.min_l by lia. rewrite Z.max_l by lia.
  rewrite Nat2Z.id. f_equal. lia.
Qed.

Lemma subarray_prefix (buf : buffer) (a : nat) :
  (a <= length buf)%nat -> subarray buf 0 (Z.of_nat a) = firstn a buf.
Proof.
  intros Ha. change 0 with (Z.of_nat 0).
  rewrite subarray_in_range by lia. simpl. now rewrite Nat.sub_0_r.
Qed.

Lemma subarray_from_suffix (buf : buffer) (a : nat) :
  (a <= length buf)%nat -> subarray_from buf (Z.of_nat a) = skipn a buf.
Proof.
  intros Ha. unfold subarray_from, len.
  rewrite subarray_in_range by lia.
  apply firstn_all2. rewrite length_skipn. lia.
Qed.

End JSFacts.

(** ** Numbers and decimal digits *)

Module NumberFacts.
Import JS.

(** [a <= b] on Numbers, as the loop tests it: not [a > b]. *)
Definition le (a b : number) : Prop := gt a b = false.

Lemma le_refl (a : number) : le a a.
Proof. destruct a; unfold le; simpl; auto. apply Z.ltb_irrefl. Qed.

Lemma le_trans (a b c : number) : le a b -> le b c -> le a c.
Proof.
  unfold le. destruct a, b, c; simpl; try congruence.
  rewrite !Z.ltb_ge. lia.
Qed.

Lemma le_Int (x y : Z) : le (Int x) (Int y) <-> x <= y.
Proof. unfold le. simpl. apply Z.ltb_ge. Qed.

Lemma le_Int_r (a : number) (y : Z) :
  le a (Int y) -> exists x, a = Int x /\ x <= y.
Proof.
  destruct a as [x|]; unfold le; simpl; [|discriminate].
  rewrite Z.ltb_ge. eauto.
Qed.

(** The maximum the loop keeps. *)
Lemma le_max_l (a b : number) : le a (if gt a b then a else b).
Proof. destruct (gt a b) eqn:E; [apply le_refl | exact E]. Qed.

Lemma le_max_r (a b : number) : le b (if gt a b then a else b).
Proof.
  destruct (gt a b) eqn:E; [|apply le_refl].
  unfold le. destruct a, b; simpl in *; auto; try discriminate.
  apply Z.ltb_lt in E. apply Z.ltb_ge. lia.
Qed.

(** Integers up to [2^53] are exact. *)
Lemma round_double_exact (m : Z) : m <= 2 ^ 53 -> round_double m = Int m.
Proof.
  intros Hm. unfold round_double.
  destruct (Z.ltb_spec m (2 ^ 53)); [reflexivity|].
  assert (m = 2 ^ 53) as -> by lia. vm_compute. reflexivity.
Qed.

(** Rounding never takes an integer from [2^53] on below [2^53]. *)
Lemma round_double_large (m v : Z) :
  2 ^ 53 <= m -> round_double m = Int v -> 2 ^ 53 <= v.
Proof.
  intros Hm. unfold round_double.
  destruct (Z.ltb_spec m (2 ^ 53)); [lia|].
  set (e := Z.log2 m - 52). set (q := m / 2 ^ e).
  assert (Hlog : 53 <= Z.log2 m).
  { change 53 with (Z.log2 (2 ^ 53)). apply Z.log2_le_mono. lia. }
  assert (He : 1 <= e) by (unfold e; lia).
  assert (Hpe : 2 ^ 1 <= 2 ^ e) by (apply Z.pow_le_mono_r; lia).
  assert (Hq : 2 ^ 52 <= q).
  { unfold q. apply Z.div_le_lower_bound; [lia|].
    rewrite <- Z.pow_add_r by lia.
    replace (e + 52) with (Z.log2 m) by (unfold e; lia).
    apply Z.log2_spec. lia. }
  assert (Hv : forall q', q <= q' -> 2 ^ 53 <= q' * 2 ^ e).
  { intros q' Hq'. change (2 ^ 53) with (2 ^ 52 * 2 ^ 1).
    apply Z.mul_le_mono_nonneg; lia. }
  intros E.
  destruct (2 ^ 1024 <=? _); [discriminate|]. injection E as <-.
  apply Hv.
  destruct (m mod 2 ^ e <? 2 ^ (e - 1)); [lia|].
  destruct (2 ^ (e - 1) <? m mod 2 ^ e); [lia|].
  destruct (Z.even q); lia.
Qed.

Lemma round_double_inv (m v : Z) :
  round_double m = Int v -> v < 2 ^ 53 -> m = v.
Proof.
  intros E Hv. destruct (Z.lt_ge_cases m (2 ^ 53)) as [L | G].
  - rewrite round_double_exact in E by lia. congruence.
  - apply round_double_large in E; auto. lia.
Qed.

(** *** Decimal digits *)

Lemma digit_value_byte (d : Z) : 0 <= d <= 9 -> digit_value (digit_byte d) = d.
Proof.
  intros Hd.
  assert (d = 0 \/ d = 1 \/ d = 2 \/ d = 3 \/ d = 4 \/
          d = 5 \/ d = 6 \/ d = 7 \/ d = 8 \/ d = 9) as Hc by lia.
  repeat (destruct Hc as [-> | Hc]; [reflexivity|]). now subst.
Qed.

Lemma is_digit_byte (d : Z) : is_digit (digit_byte d) = true.
Proof.
  unfold digit_byte.
  repeat match goal with
         | |- context [match ?x with _ => _ end] => destruct x
         end; reflexivity.
Qed.

Lemma is_digit_value (b : byte) : is_digit b = true -> 0 <= digit_value b <= 9.
Proof.
  unfold is_digit, digit_value. rewrite andb_true_iff, !Z.leb_le. lia.
Qed.

Lemma len_cons (b : byte) (l : buffer) : len (b :: l) = len l + 1.
Proof. unfold len. cbn [length]. lia. Qed.

Lemma fold_value_acc (ds : buffer) :
  forall acc,
    fold_left (fun a b => a * 10 + digit_value b) ds acc
    = acc * 10 ^ len ds + decimal_value ds.
Proof.
  unfold decimal_value.
  induction ds as [|d ds IH]; intros acc; cbn [fold_left].
  - unfold len. simpl. lia.
  - rewrite IH, (IH (0 * 10 + digit_value d)), len_cons.
    rewrite Z.pow_add_r by (unfold len; lia). ring.
Qed.

Lemma decimal_value_app (x y : buffer) :
  decimal_value (x ++ y) = decimal_value x * 10 ^ len y + decimal_value y.
Proof.
  unfold decimal_value at 1. rewrite fold_left_app.
  fold (decimal_value x). apply fold_value_acc.
Qed.

Lemma decimal_value_nonneg (ds : buffer) :
  forallb is_digit ds = true -> 0 <= decimal_value ds.
Proof.
  induction ds as [|d ds IH] using rev_ind; intros Hd.
  - unfold decimal_value. simpl. lia.
  - rewrite forallb_app in Hd. apply andb_true_iff in Hd as [H1 H2].
    simpl in H2. rewrite andb_true_r in H2.
    rewrite decimal_value_app. apply is_digit_value in H2.
    unfold len. simpl. unfold decimal_value at 2. simpl.
    specialize (IH H1). lia.
Qed.

(** A run that ends like another denotes at least as much. *)
Lemma decimal_value_suffix (x y : buffer) :
  forallb is_digit x = true -> decimal_value y <= decimal_value (x ++ y).
Proof.
  intros Hx. rewrite decimal_value_app.
  apply decimal_value_nonneg in Hx.
  assert (0 < 10 ^ len y) by (apply Z.pow_pos_nonneg; unfold len; lia).
  nia.
Qed.

Lemma decimal_digits_spec (fuel : nat) :
  forall n acc,
    0 <= n < 10 ^ Z.of_nat (S fuel) ->
    exists ds, decimal_digits (S fuel) n acc = ds ++ acc /\
               decimal_value ds = n /\
               forallb is_digit ds = true /\ ds <> [].
Proof.
  induction fuel as [|fuel IH]; intros n acc Hn;
    assert (Hmod : 0 <= n mod 10 <= 9)
      by (pose proof (Z.mod_pos_bound n 10); lia);
    assert (Hone : decimal_value [digit_byte (n mod 10)] = n mod 10)
      by (unfold decimal_value; simpl; rewrite digit_value_byte by lia; lia);
    cbn [decimal_digits]; destruct (Z.ltb_spec n 10).
  1, 3: exists [digit_byte (n mod 10)]; repeat split;
    [ rewrite Hone; apply Z.mod_small; lia
    | simpl; now rewrite is_digit_byte
    | discriminate ].
  - change (10 ^ Z.of_nat 1) with 10 in Hn. lia.
  - destruct (IH (n / 10) (digit_byte (n mod 10) :: acc)) as (ds & E & V & D & _).
    { split; [apply Z.div_pos; lia|].
      apply Z.div_lt_upper_bound; [lia|].
      rewrite (Nat2Z.inj_succ (S fuel)), Z.pow_succ_r in Hn; lia. }
    exists (ds ++ [digit_byte (n mod 10)]). repeat split.
    + cbn [decimal_digits] in E. rewrite E, <- app_assoc. reflexivity.
    + rewrite decimal_value_app, V, Hone. change (len [_]) with 1.
      pose proof (Z.div_mod n 10). lia.
    + rewrite forallb_app, D. simpl. now rewrite is_digit_byte.
    + destruct ds; discriminate.
Qed.

Lemma decimal_spec (n : Z) :
  0 <= n ->
  decimal_value (decimal n) = n /\ forallb is_digit (decimal n) = true /\
  decimal n <> [].
Proof.
  intros Hn. unfold decimal.
  destruct (decimal_digits_spec (Z.to_nat (Z.log2 n)) n []) as (ds & E & V & D & N).
  { split; [assumption|].
    rewrite Nat2Z.inj_succ, Z2Nat.id by apply Z.log2_nonneg.
    destruct (Z.eq_dec n 0) as [-> | Hz]; [reflexivity|].
    apply Z.lt_le_trans with (2 ^ Z.succ (Z.log2 n)).
    - apply Z.log2_spec. lia.
    - apply Z.pow_le_mono_l. lia. }
  rewrite app_nil_r in E. rewrite E. auto.
Qed.

(** Printing an integer up to [2^53] and parsing it back is the identity. *)
Lemma parseInt_decimal (n : Z) :
  0 <= n <= 2 ^ 53 -> parseInt (decimal n) = Int n.
Proof.
  intros Hn. unfold parseInt.
  destruct (decimal_spec n) as (-> & _); [lia|].
  apply round_double_exact. lia.
Qed.

End NumberFacts.

(** ** The regular expression *)

Module RegexFacts.
Import JS JSFacts.

(** The byte at index [j] is a digit, or is not one (or is past the end). *)
Definition digit_at (s : buffer) (j : nat) : Prop :=
  exists b, nth_error s j = Some b /\ is_digit b = true.

Definition nondigit_at (s : buffer) (j : nat) : Prop :=
  forall b, nth_error s j = Some b -> is_digit b = false.

(** No digit comes just before index [r]. *)
Definition run_start (s : buffer) (r : nat) : Prop :=
  match r with
  | O => True
  | S r' => nondigit_at s r'
  end.

Lemma digit_at_skipn (s : buffer) (r j : nat) :
  digit_at (skipn r s) j <-> digit_at s (r + j).
Proof. unfold digit_at. now rewrite nth_error_skipn. Qed.

Lemma nondigit_at_skipn (s : buffer) (r j : nat) :
  nondigit_at (skipn r s) j <-> nondigit_at s (r + j).
Proof. unfold nondigit_at. now rewrite nth_error_skipn. Qed.

Lemma digit_nondigit (s : buffer) (j : nat) :
  digit_at s j -> nondigit_at s j -> False.
Proof. intros (b & E & D) N. rewrite (N b E) in D. discriminate. Qed.

Lemma occurs_at_nth (needle s : buffer) (p j : nat) :
  occurs_at needle s p -> (j < length needle)%nat ->
  nth_error s (p + j) = nth_error needle j.
Proof.
  intros Hocc Hj.
  transitivity (nth_error (firstn (length needle) (skipn p s)) j);
    [|now rewrite Hocc].
  rewrite nth_error_firstn, nth_error_skipn.
  destruct (Nat.ltb_spec j (length needle)); [reflexivity | lia].
Qed.

Lemma occurs_at_starts (needle l : buffer) (k : nat) :
  occurs_at needle l k <-> starts_with needle (skipn k l) = true.
Proof. unfold occurs_at. symmetry. apply starts_with_iff. Qed.

(** *** Runs of digits *)

Lemma digit_run_digits (l : buffer) :
  forall j, (j < digit_run l)%nat -> digit_at l j.
Proof.
  induction l as [|b l IH]; simpl; intros j Hj; [lia|].
  destruct (is_digit b) eqn:D; [|lia].
  destruct j as [|j].
  - exists b. auto.
  - apply IH. lia.
Qed.

Lemma digit_run_stop (l : buffer) : nondigit_at l (digit_run l).
Proof.
  induction l as [|b l IH]; simpl; intros c Hc.
  - discriminate.
  - destruct (is_digit b) eqn:D.
    + apply IH. exact Hc.
    + simpl in Hc. congruence.
Qed.

Lemma digit_run_eq (l : buffer) :
  forall k, (forall j, (j < k)%nat -> digit_at l j) -> nondigit_at l k ->
            digit_run l = k.
Proof.
  induction l as [|b l IH]; intros k Hd Hn; simpl.
  - destruct k; [reflexivity|].
    destruct (Hd O) as (c & Hc & _); [lia | discriminate].
  - destruct k as [|k].
    + now rewrite (Hn b eq_refl).
    + destruct (Hd O) as (c & Hc & Dc); [lia|].
      simpl in Hc. injection Hc as ->. rewrite Dc. f_equal.
      apply IH.
      * intros j Hj. apply (Hd (S j)). lia.
      * exact Hn.
Qed.

(** *** One match attempt *)

Lemma literal_not_digit (l : buffer) (k : nat) :
  occurs_at obj_literal l k -> nondigit_at l k.
Proof.
  intros Hocc b Hb.
  pose proof (occurs_at_nth _ _ _ O Hocc ltac:(simpl; lia)) as E.
  rewrite Nat.add_0_r, Hb in E. simpl in E. now injection E as ->.
Qed.

(** Backtracking never helps: only the whole run of digits can be
    followed by the literal. *)
Lemma try_capture_inv (l : buffer) :
  forall k k', (k <= digit_run l)%nat -> try_capture k l = Some k' ->
               k' = digit_run l /\ (1 <= k')%nat /\ occurs_at obj_literal l k'.
Proof.
  induction k as [|k IH]; intros k' Hk; cbn [try_capture]; [discriminate|].
  destruct (starts_with obj_literal (skipn (S k) l)) eqn:E.
  - intros [= <-]. apply occurs_at_starts in E.
    split; [|split; [lia | assumption]].
    destruct (Nat.eq_dec (S k) (digit_run l)) as [|Hne]; [assumption|].
    exfalso. apply (digit_nondigit l (S k)).
    + apply digit_run_digits. lia.
    + now apply literal_not_digit.
  - apply IH. lia.
Qed.

Lemma match_here_inv (l g : buffer) (n : nat) :
  match_here l = Some (g, n) ->
  (1 <= digit_run l)%nat /\ occurs_at obj_literal l (digit_run l) /\
  g = firstn (digit_run l) l /\ n = (digit_run l + 6)%nat.
Proof.
  unfold match_here.
  destruct (try_capture (digit_run l) l) as [k|] eqn:E; [|discriminate].
  apply try_capture_inv in E as (-> & H1 & H2); [|lia].
  intros [= <- <-]. auto.
Qed.

Lemma match_here_intro (l : buffer) :
  (1 <= digit_run l)%nat -> occurs_at obj_literal l (digit_run l) ->
  match_here l = Some (firstn (digit_run l) l, (digit_run l + 6)%nat).
Proof.
  intros H1 Hocc. unfold match_here.
  destruct (digit_run l) as [|k]; [lia|]. cbn [try_capture].
  apply occurs_at_starts in Hocc. now rewrite Hocc.
Qed.

Lemma match_here_nil : match_here [] = None.
Proof. reflexivity. Qed.

(** *** The leftmost match *)

Lemma exec_from_some (l : buffer) :
  forall i g e,
    exec_from l i = Some (g, e) ->
    exists m n, e = (i + m + n)%nat /\ match_here (skipn m l) = Some (g, n) /\
                forall j, (j < m)%nat -> match_here (skipn j l) = None.
Proof.
  induction l as [|b l IH]; intros i g e; cbn [exec_from].
  - rewrite match_here_nil. discriminate.
  - destruct (match_here (b :: l)) as [[g' n']|] eqn:E.
    + intros [= <- <-]. exists O, n'. repeat split; [lia | assumption | lia].
    + intros Hex. apply IH in Hex as (m & n & -> & Hm & Hmin).
      exists (S m), n. repeat split; [lia | assumption |].
      intros [|j] Hj; [assumption|]. apply Hmin. lia.
Qed.

Lemma exec_from_none (l : buffer) :
  forall i, exec_from l i = None -> forall j, match_here (skipn j l) = None.
Proof.
  induction l as [|b l IH]; intros i; cbn [exec_from].
  - intros _ j. now rewrite skipn_nil.
  - destruct (match_here (b :: l)) as [[g' n']|] eqn:E; [discriminate|].
    intros Hex [|j]; [assumption|]. apply (IH _ Hex).
Qed.

Lemma match_here_past_end (s : buffer) (j : nat) :
  (length s <= j)%nat -> match_here (skipn j s) = None.
Proof. intros Hj. now rewrite skipn_all2. Qed.

Lemma exec_some (s : buffer) (i : nat) (g : buffer) (e : nat) :
  exec s i = Some (g, e) ->
  exists m n, (i <= m)%nat /\ e = (m + n)%nat /\
              match_here (skipn m s) = Some (g, n) /\
              forall j, (i <= j < m)%nat -> match_here (skipn j s) = None.
Proof.
  unfold exec. destruct (Nat.ltb_spec (length s) i); [discriminate|].
  intros Hex. apply exec_from_some in Hex as (m & n & -> & Hm & Hmin).
  rewrite skipn_skipn in Hm.
  exists (m + i)%nat, n. repeat split; [lia | lia | assumption |].
  intros j Hj. specialize (Hmin (j - i)%nat ltac:(lia)).
  rewrite skipn_skipn in Hmin. now replace (j - i + i)%nat with j in Hmin by lia.
Qed.

Lemma exec_none (s : buffer) (i : nat) :
  exec s i = None ->
  forall j, (i <= j)%nat -> match_here (skipn j s) = None.
Proof.
  unfold exec. destruct (Nat.ltb_spec (length s) i); intros Hex j Hj.
  - apply match_here_past_end. lia.
  - pose proof (exec_from_none _ _ Hex (j - i)%nat) as Hn.
    rewrite skipn_skipn in Hn. now replace (j - i + i)%nat with j in Hn by lia.
Qed.

(** A match is at least seven bytes long and lies inside the subject. *)
Lemma match_here_bounds (s g : buffer) (m n : nat) :
  match_here (skipn m s) = Some (g, n) ->
  (7 <= n)%nat /\ (m + n <= length s)%nat.
Proof.
  intros Hm. apply match_here_inv in Hm as (H1 & Hocc & _ & ->).
  split; [lia|]. apply occurs_at_skipn in Hocc.
  apply occurs_at_bound in Hocc; [|discriminate]. simpl in Hocc. lia.
Qed.

(** *** Matches do not overlap a later run of digits

    A match that starts before the start [r] of a numbered run ends at or
    before [r]: inside the match, only the [0] of [" 0 obj"] could start a
    run, and that run is followed by [" obj"], not by [" 0 obj"]. *)
Lemma match_before_run (s g1 g2 : buffer) (m n1 r n2 : nat) :
  match_here (skipn m s) = Some (g1, n1) ->
  match_here (skipn r s) = Some (g2, n2) ->
  run_start s r -> (m < r)%nat -> (m + n1 <= r)%nat.
Proof.
  intros Hm Hr Hstart Hlt.
  apply match_here_inv in Hm as (_ & Hocc1 & _ & ->).
  apply match_here_inv in Hr as (Hk2 & Hocc2 & _ & _).
  set (k1 := digit_run (skipn m s)) in *.
  set (k2 := digit_run (skipn r s)) in *.
  apply occurs_at_skipn in Hocc1, Hocc2.
  assert (Hlit : forall j, (j < 6)%nat ->
                   nth_error s (m + k1 + j) = nth_error obj_literal j)
    by (intros j Hj; now apply occurs_at_nth).
  assert (Hdr : digit_at s r).
  { replace r with (r + 0)%nat by lia. apply digit_at_skipn.
    apply digit_run_digits. fold k2. lia. }
  destruct (Nat.le_gt_cases (m + (k1 + 6)) r) as [|Hin]; [assumption|].
  exfalso.
  destruct (Nat.lt_ge_cases r (m + k1)) as [Hd | Hl].
  - (* [r] lies among the digits of the first match *)
    destruct r as [|r']; [lia|]. simpl in Hstart.
    apply (digit_nondigit s r'); [|assumption].
    replace r' with (m + (r' - m))%nat by lia. apply digit_at_skipn.
    apply digit_run_digits. fold k1. lia.
  - (* [r] lies in the literal of the first match *)
    destruct Hdr as (b & Hb & Db).
    assert (Hj : exists j, (j < 6)%nat /\ r = (m + k1 + j)%nat)
      by (exists (r - (m + k1))%nat; lia).
    destruct Hj as (j & Hj & ->). rewrite Hlit in Hb by lia.
    destruct j as [|[|[|[|[|[|j]]]]]]; [| | | | | | lia];
      simpl in Hb; injection Hb as <-; try discriminate.
    (* j = 1: the run at [r] is the single digit 0 *)
    assert (K2 : k2 = 1%nat).
    { apply digit_run_eq.
      - intros j Hj'. assert (j = O) as -> by lia.
        apply digit_at_skipn. rewrite Nat.add_0_r.
        exists "0"%byte. split; [|reflexivity]. now rewrite Hlit by lia.
      - apply nondigit_at_skipn. intros c Hc.
        replace (m + k1 + 1 + 1)%nat with (m + k1 + 2)%nat in Hc by lia.
        rewrite Hlit in Hc by lia. simpl in Hc. now injection Hc as <-. }
    rewrite K2 in Hocc2.
    pose proof (occurs_at_nth _ _ _ 1%nat Hocc2 ltac:(simpl; lia)) as E.
    replace (m + k1 + 1 + 1 + 1)%nat with (m + k1 + 3)%nat in E by lia.
    rewrite Hlit in E by lia. simpl in E. discriminate.
Qed.

End RegexFacts.

(** ** The embedder's scan for the highest object number *)

Module ScanFacts.
Import JS JSFacts NumberFacts RegexFacts Embedder.

Lemma firstn_add_split {A : Type} (x y : nat) :
  forall l : list A, firstn (x + y) l = firstn x l ++ firstn y (skipn x l).
Proof.
  induction x as [|x IH]; intros [|a l]; simpl; auto.
  - now rewrite firstn_nil.
  - now rewrite IH.
Qed.

Lemma forallb_digit_at (k : nat) :
  forall l, forallb is_digit (firstn k l) = true -> (k <= length l)%nat ->
            forall j, (j < k)%nat -> digit_at l j.
Proof.
  induction k as [|k IH]; intros [|b l] Hd Hk j Hj; simpl in *; try lia.
  apply andb_true_iff in Hd as [Hb Hd]. destruct j as [|j].
  - exists b. auto.
  - apply (IH l); auto; lia.
Qed.

Lemma digit_at_forallb (k : nat) :
  forall l, (forall j, (j < k)%nat -> digit_at l j) ->
            forallb is_digit (firstn k l) = true.
Proof.
  induction k as [|k IH]; intros l Hd; [reflexivity|].
  destruct (Hd O) as (b & Hb & Db); [lia|].
  destruct l as [|c l]; [discriminate|]. simpl in Hb. injection Hb as ->.
  simpl. rewrite Db. simpl. apply IH. intros j Hj. apply (Hd (S j)). lia.
Qed.

(** Every digit belongs to a run that starts somewhere. *)
Lemma run_start_exists (s : buffer) :
  forall a, digit_at s a ->
            exists r, (r <= a)%nat /\ run_start s r /\
                      forall j, (r <= j <= a)%nat -> digit_at s j.
Proof.
  induction a as [|a IH]; intros Ha.
  - exists O. repeat split; auto. intros j Hj. now replace j with O by lia.
  - assert (Hdec : digit_at s a \/ nondigit_at s a).
    { unfold digit_at, nondigit_at. destruct (nth_error s a) as [b|].
      - destruct (is_digit b) eqn:D; [left; eauto|].
        right. now intros c [= <-].
      - right. discriminate. }
    destruct Hdec as [Hd | Hn].
    + destruct (IH Hd) as (r & Hr & Hs & Hall).
      exists r. repeat split; auto.
      intros j Hj. destruct (Nat.eq_dec j (S a)) as [-> | Hne]; auto.
      apply Hall. lia.
    + exists (S a). repeat split; auto.
      intros j Hj. now replace j with (S a) by lia.
Qed.

(** A numbered run is the tail of a match of the pattern at the start of
    the whole run of digits it belongs to. *)
Lemma numbered_run_match (s : buffer) (a k : nat) :
  numbered_at s a k ->
  exists r pre,
    (r <= a)%nat /\ run_start s r /\ forallb is_digit pre = true /\
    match_here (skipn r s)
    = Some (pre ++ firstn k (skipn a s), (a + k - r + 6)%nat).
Proof.
  intros (Hk & Hd & Hocc).
  assert (Hlen : (a + k + 6 <= length s)%nat).
  { apply occurs_at_bound in Hocc; [exact Hocc | discriminate]. }
  assert (Hda : forall j, (j < k)%nat -> digit_at s (a + j)).
  { intros j Hj. apply digit_at_skipn. revert j Hj.
    apply forallb_digit_at; auto. rewrite length_skipn. lia. }
  destruct (run_start_exists s a) as (r & Hr & Hs & Hall).
  { replace a with (a + 0)%nat by lia. apply Hda. lia. }
  assert (Hrun : digit_run (skipn r s) = (a + k - r)%nat).
  { apply digit_run_eq.
    - intros j Hj. apply digit_at_skipn.
      destruct (Nat.le_gt_cases (r + j) a) as [L | G].
      + apply Hall. lia.
      + replace (r + j)%nat with (a + (r + j - a))%nat by lia. apply Hda. lia.
    - apply nondigit_at_skipn. replace (r + (a + k - r))%nat with (a + k)%nat by lia.
      now apply literal_not_digit. }
  exists r, (firstn (a - r) (skipn r s)). repeat split; auto.
  - apply digit_at_forallb. intros j Hj. apply digit_at_skipn. apply Hall. lia.
  - rewrite match_here_intro; rewrite Hrun.
    + replace (a + k - r)%nat with ((a - r) + k)%nat at 1 by lia.
      rewrite firstn_add_split, skipn_skipn.
      now replace (a - r + r)%nat with a by lia.
    + lia.
    + apply occurs_at_skipn. now replace (r + (a + k - r))%nat with (a + k)%nat by lia.
Qed.

(** The loop never lowers [maxObjNum]. *)
Lemma loop_mono (s : buffer) (fuel : nat) :
  forall i mx, le mx (maxObjNum_loop fuel s i mx).
Proof.
  induction fuel as [|fuel IH]; intros i mx; cbn [maxObjNum_loop].
  - apply le_refl.
  - destruct (exec s i) as [[g e]|]; [|apply le_refl].
    eapply le_trans; [apply le_max_r | apply IH].
Qed.

(** With enough fuel, the loop sees the match at every start of a run at
    or after [lastIndex]. *)
Lemma loop_complete (s : buffer) (fuel : nat) :
  forall i mx r g n,
    (length s < fuel + i)%nat -> (i <= r)%nat -> run_start s r ->
    match_here (skipn r s) = Some (g, n) ->
    le (parseInt g) (maxObjNum_loop fuel s i mx).
Proof.
  induction fuel as [|fuel IH]; intros i mx r g n Hfuel Hir Hs Hm.
  - rewrite match_here_past_end in Hm by lia. discriminate.
  - cbn [maxObjNum_loop].
    destruct (exec s i) as [[g' e]|] eqn:Hex.
    + apply exec_some in Hex as (m & n' & Him & -> & Hm' & Hmin).
      destruct (Nat.lt_trichotomy m r) as [L | [-> | G]].
      * apply (IH _ _ r g n); auto.
        -- apply match_here_bounds in Hm'. lia.
        -- eapply match_before_run; eassumption.
      * rewrite Hm in Hm'. injection Hm' as <- <-.
        eapply le_trans; [apply le_max_l | apply loop_mono].
      * rewrite Hmin in Hm by lia. discriminate.
    + rewrite (exec_none _ _ Hex r Hir) in Hm. discriminate.
Qed.

(** What the loop returns is its starting value or a parsed match. *)
Lemma loop_sound (s : buffer) (fuel : nat) :
  forall i mx,
    maxObjNum_loop fuel s i mx = mx \/
    exists m g n, match_here (skipn m s) = Some (g, n) /\
                  maxObjNum_loop fuel s i mx = parseInt g.
Proof.
  induction fuel as [|fuel IH]; intros i mx; cbn [maxObjNum_loop]; auto.
  destruct (exec s i) as [[g e]|] eqn:Hex; auto.
  apply exec_some in Hex as (m & n & _ & -> & Hm & _).
  destruct (IH (m + n)%nat (if gt (parseInt g) mx then parseInt g else mx))
    as [E | (m' & g' & n' & Hm' & E)]; rewrite E.
  - destruct (gt (parseInt g) mx); [right; eauto | left; reflexivity].
  - right. eauto.
Qed.

(** A match is a numbered run. *)
Lemma match_numbered (s g : buffer) (m n : nat) :
  match_here (skipn m s) = Some (g, n) ->
  exists k, numbered_at s m k /\ g = firstn k (skipn m s).
Proof.
  intros Hm. apply match_here_inv in Hm as (H1 & Hocc & -> & _).
  exists (digit_run (skipn m s)). split; [|reflexivity].
  split; [assumption|]. split.
  - apply digit_at_forallb, digit_run_digits.
  - now apply occurs_at_skipn.
Qed.

(** *** The highest object number, when it is exact as a double *)

Lemma maxObjNum_nonneg (s : buffer) (M : Z) : maxObjNum s = Int M -> 0 <= M.
Proof.
  intros E. apply le_Int. rewrite <- E. apply loop_mono.
Qed.

Lemma maxObjNum_bound (s : buffer) (M : Z) :
  maxObjNum s = Int M -> M < 2 ^ 53 ->
  forall a k, numbered_at s a k -> object_number s a k <= M.
Proof.
  intros E HM a k Hnum.
  destruct (numbered_run_match s a k Hnum) as (r & pre & Hr & Hs & Hpre & Hm).
  pose proof (loop_complete s (S (length s)) O (Int 0) r _ _
                ltac:(lia) ltac:(lia) Hs Hm) as Hle.
  fold (maxObjNum s) in Hle. rewrite E in Hle.
  apply le_Int_r in Hle as (x & Hx & Hxm).
  apply round_double_inv in Hx; [|lia].
  unfold object_number.
  pose proof (decimal_value_suffix pre (firstn k (skipn a s)) Hpre) as Hsuf.
  rewrite Hx in Hsuf. eapply Z.le_trans; [exact Hsuf | exact Hxm].
Qed.

Lemma maxObjNum_attained (s : buffer) (M : Z) :
  maxObjNum s = Int M -> M < 2 ^ 53 ->
  M = 0 \/ exists a k, numbered_at s a k /\ object_number s a k = M.
Proof.
  intros E HM. unfold maxObjNum in E.
  destruct (loop_sound s (S (length s)) O (Int 0)) as [E0 | (m & g & n & Hm & Eg)].
  - left. congruence.
  - right. rewrite E in Eg. symmetry in Eg.
    apply round_double_inv in Eg; [|assumption].
    apply match_numbered in Hm as (k & Hnum & ->).
    exists m, k. auto.
Qed.

Lemma newObjNum_exact (s : buffer) (M : Z) :
  maxObjNum s = Int M -> M < 2 ^ 53 -> newObjNum s = Int (M + 1).
Proof.
  intros E HM. unfold newObjNum. rewrite E. simpl.
  apply round_double_exact. lia.
Qed.

End ScanFacts.

(** ** Occurrences in a concatenation *)

Module SpliceFacts.
Import JS JSFacts RegexFacts.

Lemma nth_error_app_skip {A : Type} (pre l : list A) (i : nat) :
  nth_error (pre ++ l) (length pre + i) = nth_error l i.
Proof.
  rewrite nth_error_app2 by lia. f_equal. lia.
Qed.

Lemma occurs_at_app_skip (needle pre l : buffer) (q : nat) :
  occurs_at needle (pre ++ l) (length pre + q) <-> occurs_at needle l q.
Proof.
  unfold occurs_at. rewrite skipn_app, skipn_all2 by lia.
  now replace (length pre + q - length pre)%nat with q by lia.
Qed.

Lemma occurs_at_app_inside (needle c post : buffer) (q : nat) :
  (q + length needle <= length c)%nat ->
  occurs_at needle (c ++ post) q <-> occurs_at needle c q.
Proof.
  intros Hq. unfold occurs_at.
  rewrite skipn_app, firstn_app, length_skipn.
  replace (q - length c)%nat with O by lia.
  replace (length needle - (length c - q))%nat with O by lia.
  simpl. now rewrite app_nil_r.
Qed.

(** A needle that is absent from a buffer is absent from its prefixes. *)
Lemma absent_firstn (needle buf : buffer) (p : nat) :
  needle <> [] -> absent_from needle buf 0 ->
  absent_from needle (firstn p buf) 0.
Proof.
  intros Hne Ha q _ Hocc. apply (Ha q ltac:(lia)).
  rewrite <- (firstn_skipn p buf). apply occurs_at_app_inside; auto.
  now apply occurs_at_bound.
Qed.

(** A needle is absent where its first byte is. *)
Lemma absent_without_head (h : byte) (t c : buffer) :
  ~ In h c -> absent_from (h :: t) c 0.
Proof.
  intros Hin q _ Hocc. apply Hin.
  pose proof (occurs_at_nth _ _ _ O Hocc ltac:(simpl; lia)) as E.
  rewrite Nat.add_0_r in E. simpl in E. eapply nth_error_In. exact E.
Qed.

(** If the last byte [z] of the needle occurs nowhere else in it, and the
    needle is absent from [c], then in [pre ++ c ++ needle ++ rest] the
    first occurrence at or after the end of [pre] is the one written out:
    none lies inside [c], and none can straddle the end of [c]. *)
Lemma first_occurrence_splice (body : buffer) (z : byte) (pre c rest : buffer) :
  ~ In z body -> absent_from (body ++ [z]) c 0 ->
  first_occurrence (body ++ [z]) (pre ++ c ++ (body ++ [z]) ++ rest)
    (length pre) (length pre + length c).
Proof.
  intros Hz Ha. set (needle := body ++ [z]) in *.
  assert (Hn : length needle = S (length body)).
  { unfold needle. rewrite length_app. simpl. lia. }
  split; [lia|]. split.
  - rewrite app_assoc, <- length_app. apply occurs_at_app.
  - intros q Hq Hocc.
    assert (Eq : q = (length pre + (q - length pre))%nat) by lia.
    set (q' := (q - length pre)%nat) in *. rewrite Eq in Hocc.
    apply occurs_at_app_skip in Hocc.
    destruct (Nat.le_gt_cases (q' + length needle) (length c)) as [L | G].
    + apply occurs_at_app_inside in Hocc; auto. exact (Ha q' ltac:(lia) Hocc).
    + pose proof (occurs_at_nth _ _ _ (length body) Hocc ltac:(lia)) as E.
      replace (q' + length body)%nat
        with (length c + (q' + length body - length c))%nat in E by lia.
      rewrite nth_error_app_skip in E.
      rewrite nth_error_app1 in E by lia.
      unfold needle in E at 1.
      rewrite nth_error_app1 in E by lia.
      unfold needle in E. rewrite nth_error_app2, Nat.sub_diag in E by lia.
      simpl in E. apply Hz. eapply nth_error_In. exact E.
Qed.

End SpliceFacts.

(** ** The store-only runtime obeys the laws *)

Lemma stored_number_laws : @NumberLaws Stored.runtime.
Proof. constructor. reflexivity. Qed.

Lemma stored_zlib_laws : @ZlibLaws Stored.runtime.
Proof. constructor; reflexivity. Qed.

(* ================================================================== *)
(** * Part III.  The embedder                                          *)
(* ================================================================== *)

Module EmbedderFacts.
Import JS JSFacts NumberFacts Embedder.

Section WithRuntime.
Context `{Runtime}.

(** Where the insertion point is, and what is written. *)
Lemma embed_at_first_xref (pdfData imageData : buffer) (p : nat) :
  first_occurrence (bytes "xref") pdfData 0 p ->
  xrefPos pdfData = Z.of_nat p /\ (p <= length pdfData)%nat /\
  embedImageInPDF pdfData imageData
  = Written (newObjNum pdfData)
      (firstn p pdfData
         ++ newObject (newObjNum pdfData) (deflateSync imageData)
         ++ skipn p pdfData).
Proof.
  intros Hp.
  assert (Ex : xrefPos pdfData = Z.of_nat p)
    by (apply (indexOf_first _ _ O); [discriminate | assumption]).
  assert (Hle : (p <= length pdfData)%nat).
  { destruct Hp as (_ & Hocc & _).
    apply occurs_at_bound in Hocc; [lia | discriminate]. }
  repeat split; auto.
  unfold embedImageInPDF. rewrite Ex.
  destruct (Z.eqb_spec (Z.of_nat p) (-1)); [lia|].
  unfold newPdfData. now rewrite subarray_prefix, subarray_from_suffix.
Qed.

End WithRuntime.
End EmbedderFacts.

(* ================================================================== *)
(** * Part IV.  The extractor                                          *)
(* ================================================================== *)

Module ExtractorFacts.
Import JS JSFacts NumberFacts RegexFacts SpliceFacts Extractor.

(** The three literals the script searches for. *)
Definition OBJ111 : buffer := bytes "111 0 obj".
Definition STREAM : buffer := bytes "stream" ++ [LF].
Definition ENDSTREAM : buffer := [LF] ++ bytes "endstream".

Ltac not_in :=
  let HIn := fresh "HIn" in
  simpl; intros HIn;
  repeat (destruct HIn as [HIn | HIn]; [discriminate|]); exact HIn.

Section WithRuntime.
Context `{Runtime}.

(** The run that reports missing boundaries. *)
Definition boundaries_not_found : run :=
  {| console := [CouldNotFindBoundaries]; files := []; ending := Exit 1 |}.

(** Without the literal ["111 0 obj"] the script stops at its check. *)
Lemma final_extract_without_111 (pdfData : buffer) :
  absent_from OBJ111 pdfData 0 -> final_extract pdfData = boundaries_not_found.
Proof.
  intros Ha. unfold final_extract, boundaries_missing.
  replace (obj111Start pdfData) with (-1); [reflexivity|].
  symmetry. apply (indexOf_absent _ _ O); [discriminate | assumption].
Qed.

(** If the script gets past its check, the literal is there, and
    [obj111Start] is its first occurrence. *)
Lemma final_extract_past_check (pdfData : buffer) :
  final_extract pdfData <> boundaries_not_found ->
  exists p, first_occurrence OBJ111 pdfData 0 p /\
            obj111Start pdfData = Z.of_nat p.
Proof.
  intros Hrun.
  destruct (indexOf_inv pdfData OBJ111 O ltac:(discriminate))
    as [[_ Ha] | (p & Ep & Hp)].
  - exfalso. apply Hrun. now apply final_extract_without_111.
  - exists p. split; [assumption | exact Ep].
Qed.

(** Without ["\nendstream"] at or after the stream start, too. *)
Lemma final_extract_without_endstream (pdfData : buffer) (start : nat) :
  streamStart pdfData (obj111Start pdfData) = Z.of_nat start ->
  absent_from ENDSTREAM pdfData start ->
  final_extract pdfData = boundaries_not_found.
Proof.
  intros Es Ha. unfold final_extract, boundaries_missing. rewrite Es.
  replace (endstreamPos pdfData (Z.of_nat start)) with (-1).
  - now rewrite !orb_true_r.
  - symmetry. apply indexOf_absent; [discriminate | assumption].
Qed.

(** Extraction from a buffer of the shape the embedder writes for object
    111: the isolated stream is exactly [c]. *)
Lemma final_extract_shape (pre mid c tail : buffer) :
  absent_from OBJ111 pre 0 -> ~ In "s"%byte mid -> absent_from ENDSTREAM c 0 ->
  final_extract (pre ++ OBJ111 ++ mid ++ STREAM ++ c ++ ENDSTREAM ++ tail)
  = decode c.
Proof.
  intros Hpre Hmid Hc.
  set (out := pre ++ OBJ111 ++ mid ++ STREAM ++ c ++ ENDSTREAM ++ tail).
  set (head := pre ++ (OBJ111 ++ mid) ++ STREAM).
  assert (E1 : obj111Start out = Z.of_nat (length pre)).
  { apply (indexOf_first _ _ O); [discriminate|].
    pose proof (first_occurrence_splice (bytes "111 0 ob") "j"%byte [] pre
                  (mid ++ STREAM ++ c ++ ENDSTREAM ++ tail)
                  ltac:(not_in) Hpre) as Hf.
    exact Hf. }
  assert (E2 : streamStart out (Z.of_nat (length pre))
               = Z.of_nat (length head)).
  { change (indexOf out STREAM (Z.of_nat (length pre)) + 7
            = Z.of_nat (length head)).
    rewrite (indexOf_first out STREAM (length pre)
               (length pre + length (OBJ111 ++ mid))).
    - unfold head. rewrite !length_app. simpl. lia.
    - discriminate.
    - unfold out. rewrite (app_assoc OBJ111 mid).
      apply (first_occurrence_splice (bytes "stream") LF); [not_in|].
      apply absent_without_head. intros HIn.
      apply in_app_or in HIn as [HIn | HIn]; [revert HIn; not_in | auto]. }
  assert (Eout : out = head ++ c ++ ENDSTREAM ++ tail).
  { unfold out, head. now rewrite <- !app_assoc. }
  assert (E3 : endstreamPos out (Z.of_nat (length head))
               = Z.of_nat (length head + length c)).
  { unfold endstreamPos. apply indexOf_first; [discriminate|].
    rewrite Eout.
    apply (first_occurrence_splice ([LF] ++ bytes "endstrea") "m"%byte);
      [not_in | exact Hc]. }
  unfold final_extract, boundaries_missing, streamData.
  fold out. rewrite E1, E2, E3.
  destruct (Z.eqb_spec (Z.of_nat (length pre)) (-1)); [lia|].
  destruct (Z.eqb_spec (Z.of_nat (length head)) (-1)); [lia|].
  destruct (Z.eqb_spec (Z.of_nat (length head + length c)) (-1)); [lia|].
  simpl orb. cbv iota. f_equal.
  rewrite subarray_in_range.
  - rewrite Eout, skipn_app, skipn_all, Nat.sub_diag. simpl.
    replace (length head + length c - length head)%nat with (length c) by lia.
    rewrite firstn_app, firstn_all, Nat.sub_diag. simpl. apply app_nil_r.
  - rewrite Eout, !length_app. lia.
Qed.

(** A deflated JPEG payload decodes to the payload. *)
Lemma decode_deflated `{!ZlibLaws} (P t : buffer) :
  P = xff :: xd8 :: t ->
  decode (deflateSync P)
  = {| console := [ZlibDetected; ValidJpegRecovered];
       files := [("final_recovered.jpg"%string, P)];
       ending := Completed |}.
Proof.
  intros EP. unfold decode.
  rewrite deflate_header, inflate_deflate. simpl (Byte.eqb x78 x78).
  cbv iota. subst P. reflexivity.
Qed.

(** A slice that does not begin with [0x78] but is not empty is saved. *)
Lemma decode_not_zlib (b : byte) (t : buffer) :
  b <> x78 ->
  decode (b :: t)
  = {| console := [NotZlibCompressed];
       files := [("raw_stream.bin"%string, b :: t)];
       ending := Completed |}.
Proof.
  intros Hb. unfold decode. simpl.
  destruct (Byte.eqb b x78) eqn:E; [|reflexivity].
  apply byte_eqb_eq in E. contradiction.
Qed.

End WithRuntime.
End ExtractorFacts.

(* ================================================================== *)
(** * Part V.  The properties of the specification                     *)
(* ================================================================== *)

Import JS JSFacts NumberFacts RegexFacts ScanFacts SpliceFacts.
Import EmbedderFacts ExtractorFacts.

(** ** C2: the splice *)

(** C2.  For an insertion offset inside the original buffer, the buffer
    the embedder assembles is [original[0:offset] ++ newObject ++
    original[offset:]]; below the offset every byte is the byte of the
    original at the same index, and from the offset on every byte of the
    original is found [length newObject] places further. *)
Theorem splice_contract (original newObjectBytes : buffer) (insertionOffset : nat) :
  (insertionOffset <= length original)%nat ->
  let out := Embedder.newPdfData original newObjectBytes (Z.of_nat insertionOffset) in
  out = firstn insertionOffset original ++ newObjectBytes
          ++ skipn insertionOffset original
  /\ length out = (length original + length newObjectBytes)%nat
  /\ (forall i, (i < insertionOffset)%nat ->
                nth_error out i = nth_error original i)
  /\ (forall i, (insertionOffset <= i)%nat ->
                nth_error out (i + length newObjectBytes) = nth_error original i).
Proof.
  intros Hoff out.
  assert (E : out = firstn insertionOffset original ++ newObjectBytes
                      ++ skipn insertionOffset original).
  { unfold out, Embedder.newPdfData.
    now rewrite subarray_prefix, subarray_from_suffix. }
  assert (Lf : length (firstn insertionOffset original) = insertionOffset)
    by (rewrite length_firstn; lia).
  split; [exact E|]. rewrite E. split; [|split].
  - rewrite !length_app, Lf, length_skipn. lia.
  - intros i Hi. rewrite nth_error_app1 by lia.
    rewrite nth_error_firstn.
    destruct (Nat.ltb_spec i insertionOffset); [reflexivity | lia].
  - intros i Hi. rewrite app_assoc, nth_error_app2; rewrite length_app, Lf; [|lia].
    rewrite nth_error_skipn. f_equal. lia.
Qed.

Lemma splice_contract_witness :
  let out := Embedder.newPdfData (bytes "abxref") (bytes "NEW") 2 in
  out = bytes "abNEWxref" /\ nth_error out 1 = Some "b"%byte
  /\ nth_error out (2 + 3) = Some "x"%byte.
Proof.
  destruct (splice_contract (bytes "abxref") (bytes "NEW") 2 ltac:(simpl; lia))
    as (E & _ & Hlow & Hhigh).
  split; [exact E|]. split.
  - exact (Hlow 1%nat ltac:(lia)).
  - exact (Hhigh 2%nat ltac:(lia)).
Defined.

(** ** C6: the insertion point *)

(** C6.  Either ["xref"] occurs in the input, the insertion point is its
    first occurrence [p], and the file written is the input with the new
    object inserted at [p]; or ["xref"] occurs nowhere, and the embedder
    throws before it writes anything. *)
Theorem embed_xref_location `{Runtime} (pdfData imageData : buffer) :
  (exists p,
     first_occurrence (bytes "xref") pdfData 0 p /\
     Embedder.xrefPos pdfData = Z.of_nat p /\
     Embedder.embedImageInPDF pdfData imageData
     = Embedder.Written (Embedder.newObjNum pdfData)
         (firstn p pdfData
            ++ Embedder.newObject (Embedder.newObjNum pdfData)
                 (deflateSync imageData)
            ++ skipn p pdfData))
  \/ (absent_from (bytes "xref") pdfData 0 /\
      Embedder.embedImageInPDF pdfData imageData = Embedder.Thrown).
Proof.
  destruct (indexOf_inv pdfData (bytes "xref") O ltac:(discriminate))
    as [[E Ha] | (p & Ep & Hp)].
  - right. split; [assumption|].
    unfold Embedder.embedImageInPDF, Embedder.xrefPos.
    change (Z.of_nat 0) with 0 in E. now rewrite E.
  - left. exists p.
    destruct (embed_at_first_xref pdfData imageData p Hp) as (Ex & _ & Ew).
    auto.
Qed.

(** ** C5: the object that is built *)

(** C5.  The object built for the number [N] and a compressed payload of
    [L] bytes is [N], as the template literal prints it, then
    [" 0 obj\n<< /Length L /Filter /FlateDecode >>\nstream\n"] with [L] in
    decimal, the payload, and ["\nendstream\nendobj\n"]; the declared
    length parses back to [L], and the [L] bytes after the header are the
    payload.  ([L] is the length of a Buffer, at most [2^53].) *)
Theorem object_grammar `{Runtime} `{!NumberLaws} (N : number) (payload : buffer) :
  len payload <= 2 ^ 53 ->
  Embedder.newObject N payload
  = Number_toString N ++ bytes " 0 obj" ++ [LF]
      ++ bytes "<< /Length " ++ decimal (len payload)
      ++ bytes " /Filter /FlateDecode >>" ++ [LF]
      ++ bytes "stream" ++ [LF]
      ++ payload
      ++ [LF] ++ bytes "endstream" ++ [LF] ++ bytes "endobj" ++ [LF]
  /\ parseInt (decimal (len payload)) = Int (len payload)
  /\ firstn (length payload)
       (skipn (length (Embedder.objHeader N payload))
          (Embedder.newObject N payload))
     = payload.
Proof.
  intros HL. pose proof (len_nonneg payload) as Hnn.
  split; [|split].
  - unfold Embedder.newObject, Embedder.objHeader, Embedder.objFooter.
    rewrite toString_decimal by lia.
    repeat rewrite <- app_assoc. reflexivity.
  - apply parseInt_decimal. lia.
  - unfold Embedder.newObject.
    rewrite skipn_app, skipn_all, Nat.sub_diag. cbn [skipn app].
    rewrite firstn_app, firstn_all, Nat.sub_diag. cbn [firstn].
    apply app_nil_r.
Qed.

Lemma object_grammar_witness :
  @Embedder.newObject Stored.runtime (Int 21) (bytes "xyz")
  = bytes "21 0 obj" ++ [LF] ++ bytes "<< /Length 3 /Filter /FlateDecode >>"
      ++ [LF] ++ bytes "stream" ++ [LF] ++ bytes "xyz"
      ++ [LF] ++ bytes "endstream" ++ [LF] ++ bytes "endobj" ++ [LF].
Proof.
  exact (proj1 (@object_grammar Stored.runtime stored_number_laws
                  (Int 21) (bytes "xyz") ltac:(unfold len; simpl; lia))).
Defined.

(** ** C7: the object the extractor looks for *)

(** C7, amended.  When the text ["111 0 obj"] occurs nowhere in the
    buffer, not even as the end of a longer number, the run reports that
    the boundaries of the object were not found, writes no file and ends
    with [process.exit(1)]. *)
Theorem missing_object_reported `{Runtime} (pdfData : buffer) :
  absent_from (bytes "111 0 obj") pdfData 0 ->
  Extractor.final_extract pdfData
  = {| Extractor.console := [Extractor.CouldNotFindBoundaries];
       Extractor.files := [];
       Extractor.ending := Extractor.Exit 1 |}.
Proof. apply final_extract_without_111. Qed.

Lemma missing_object_reported_witness :
  @Extractor.final_extract Stored.runtime (classic_pdf "1")
  = {| Extractor.console := [Extractor.CouldNotFindBoundaries];
       Extractor.files := [];
       Extractor.ending := Extractor.Exit 1 |}.
Proof.
  apply (@missing_object_reported Stored.runtime).
  apply indexOf_minus1_absent; [discriminate | vm_compute; reflexivity].
Defined.

(** ** C8: a stream the decoder rejects *)

(** C8.  When the isolated stream begins with [0x78] and [inflateSync]
    throws, the error is caught: the run reports that decompression
    failed, writes the isolated (still compressed) bytes to
    [raw_stream.bin], and runs to its end. *)
Theorem decompression_failure_caught `{Runtime} (pdfData : buffer) :
  Extractor.boundaries_missing pdfData = false ->
  at_index (Extractor.streamData pdfData) 0 = Some x78 ->
  inflateSync (Extractor.streamData pdfData) = None ->
  Extractor.final_extract pdfData
  = {| Extractor.console := [Extractor.ZlibDetected; Extractor.DecompressionFailed];
       Extractor.files := [("raw_stream.bin"%string, Extractor.streamData pdfData)];
       Extractor.ending := Extractor.Completed |}.
Proof.
  intros Hb H78 Hinf. unfold Extractor.final_extract, Extractor.decode.
  rewrite Hb, H78, Hinf. reflexivity.
Qed.

(** A stream cut short: the header [78 9c] has lost its second byte. *)
Definition truncated_stream_pdf : buffer :=
  bytes "111 0 obj" ++ [LF] ++ bytes "<< /Length 2 /Filter /FlateDecode >>"
    ++ [LF] ++ bytes "stream" ++ [LF] ++ [x78; x01]
    ++ [LF] ++ bytes "endstream" ++ [LF] ++ bytes "endobj" ++ [LF].

Lemma decompression_failure_caught_witness :
  @Extractor.final_extract Stored.runtime truncated_stream_pdf
  = {| Extractor.console := [Extractor.ZlibDetected; Extractor.DecompressionFailed];
       Extractor.files := [("raw_stream.bin"%string, [x78; x01])];
       Extractor.ending := Extractor.Completed |}.
Proof.
  exact (@decompression_failure_caught Stored.runtime truncated_stream_pdf
           eq_refl eq_refl eq_refl).
Defined.

(** ** C9: a stream that is not zlib *)

(** An object whose stream is empty. *)
Definition empty_stream_pdf : buffer :=
  bytes "111 0 obj" ++ [LF] ++ bytes "<< /Length 0 >>" ++ [LF]
    ++ bytes "stream" ++ [LF]
    ++ [LF] ++ bytes "endstream" ++ [LF] ++ bytes "endobj" ++ [LF].

(** C9, where the code departs from it.  On an empty isolated stream the
    branch for data that is not zlib prints its first line, then reads
    [streamData[0].toString(16)] with [streamData[0]] undefined: the
    TypeError is not caught and [raw_stream.bin] is never written. *)
Theorem empty_stream_uncaught `{Runtime} :
  Extractor.boundaries_missing empty_stream_pdf = false /\
  Extractor.streamData empty_stream_pdf = [] /\
  Extractor.final_extract empty_stream_pdf
  = {| Extractor.console := [Extractor.NotZlibCompressed];
       Extractor.files := [];
       Extractor.ending := Extractor.UncaughtTypeError |}.
Proof. repeat split; vm_compute; reflexivity. Qed.

(** The part of C9 that holds: an isolated stream that is not empty and
    does not begin with [0x78] is saved to [raw_stream.bin], and the run
    ends normally. *)
Lemma nonempty_not_zlib_saved `{Runtime} (pdfData : buffer) (b : byte) (t : buffer) :
  Extractor.boundaries_missing pdfData = false ->
  Extractor.streamData pdfData = b :: t -> b <> x78 ->
  Extractor.final_extract pdfData
  = {| Extractor.console := [Extractor.NotZlibCompressed];
       Extractor.files := [("raw_stream.bin"%string, b :: t)];
       Extractor.ending := Extractor.Completed |}.
Proof.
  intros Hb Hs Hne. unfold Extractor.final_extract. rewrite Hb, Hs.
  now apply decode_not_zlib.
Qed.

(** ** C3: the stream markers *)

(** An object 111 with no ["stream\n"] marker after it. *)
Definition no_stream_marker_pdf : buffer :=
  bytes "111 0 obj" ++ [LF] ++ bytes "<< >>" ++ [LF]
    ++ bytes "endstream endobj" ++ [LF].

(** C3, where the code departs from it.  Line 37 adds 7 to the result of
    [indexOf] before line 41 compares it with [-1], so a missing
    ["stream\n"] gives [streamStart = 6], never [-1]: here the marker is
    absent, the check passes, and the bytes from offset 6 to the
    ["\nendstream"] are taken for the stream and written out. *)
Theorem missing_stream_marker_unnoticed `{Runtime} :
  absent_from (bytes "stream" ++ [LF]) no_stream_marker_pdf 0 /\
  Extractor.streamStart no_stream_marker_pdf
    (Extractor.obj111Start no_stream_marker_pdf) = 6 /\
  Extractor.final_extract no_stream_marker_pdf
  = {| Extractor.console := [Extractor.NotZlibCompressed];
       Extractor.files :=
         [("raw_stream.bin"%string, bytes "obj" ++ [LF] ++ bytes "<< >>")];
       Extractor.ending := Extractor.Completed |}.
Proof.
  split; [|split; vm_compute; reflexivity].
  apply indexOf_minus1_absent; [discriminate | vm_compute; reflexivity].
Qed.

(** The part of C3 that holds: a missing ["\nendstream"] at or after the
    stream start is noticed. *)
Lemma missing_endstream_reported `{Runtime} (pdfData : buffer) (start : nat) :
  Extractor.streamStart pdfData (Extractor.obj111Start pdfData) = Z.of_nat start ->
  absent_from ([LF] ++ bytes "endstream") pdfData start ->
  Extractor.final_extract pdfData = boundaries_not_found.
Proof. apply final_extract_without_endstream. Qed.

(** ** C4: the number of the new object *)

(** When every numbered run denotes less than [2^53], every [parseInt] of
    the scan is exact, and so is the maximum. *)
Lemma maxObjNum_exact (pdfData : buffer) :
  (forall a k, numbered_at pdfData a k -> object_number pdfData a k < 2 ^ 53) ->
  exists M, Embedder.maxObjNum pdfData = Int M /\ 0 <= M < 2 ^ 53.
Proof.
  intros Hsafe. unfold Embedder.maxObjNum.
  destruct (loop_sound pdfData (S (length pdfData)) O (Int 0))
    as [-> | (m & g & n & Hm & ->)].
  - exists 0. split; [reflexivity | lia].
  - apply match_numbered in Hm as (k & Hnum & ->).
    pose proof (Hsafe m k Hnum) as Hlt. unfold object_number in Hlt.
    destruct Hnum as (_ & Hd & _). apply decimal_value_nonneg in Hd.
    eexists. split; [apply round_double_exact; lia | lia].
Qed.

(** C4, amended.  Provided every run of digits followed by [" 0 obj"]
    denotes an integer below [2^53], the number assigned is [M + 1], where
    [M] is the greatest number such a run denotes, or 0 when there is
    none; so it is strictly greater than each of them. *)
Theorem new_object_number_exceeds (pdfData : buffer) :
  (forall a k, numbered_at pdfData a k -> object_number pdfData a k < 2 ^ 53) ->
  exists M,
    Embedder.maxObjNum pdfData = Int M /\
    Embedder.newObjNum pdfData = Int (M + 1) /\
    (forall a k, numbered_at pdfData a k -> object_number pdfData a k <= M) /\
    (M = 0 \/ exists a k, numbered_at pdfData a k /\ object_number pdfData a k = M) /\
    (forall a k, numbered_at pdfData a k -> object_number pdfData a k < M + 1).
Proof.
  intros Hsafe. destruct (maxObjNum_exact pdfData Hsafe) as (M & EM & HM).
  exists M. split; [exact EM|]. split; [|split; [|split]].
  - apply newObjNum_exact; [exact EM | lia].
  - apply maxObjNum_bound; [exact EM | lia].
  - apply maxObjNum_attained; [exact EM | lia].
  - intros a k Hnum.
    pose proof (maxObjNum_bound pdfData M EM ltac:(lia) a k Hnum). lia.
Qed.

Lemma new_object_number_exceeds_witness :
  exists M,
    Embedder.maxObjNum (classic_pdf "20") = Int M /\
    Embedder.newObjNum (classic_pdf "20") = Int (M + 1) /\
    (forall a k, numbered_at (classic_pdf "20") a k ->
                 object_number (classic_pdf "20") a k <= M) /\
    (M = 0 \/ exists a k, numbered_at (classic_pdf "20") a k /\
                          object_number (classic_pdf "20") a k = M) /\
    (forall a k, numbered_at (classic_pdf "20") a k ->
                 object_number (classic_pdf "20") a k < M + 1).
Proof.
  apply new_object_number_exceeds.
  intros a k Hnum. apply Z.le_lt_trans with 20; [|lia].
  apply (maxObjNum_bound (classic_pdf "20") 20);
    [vm_compute; reflexivity | lia | exact Hnum].
Defined.

(** C4 as stated fails from [2^53] on: for a PDF whose object is numbered
    9007199254740992, [maxObjNum + 1] rounds back to 9007199254740992,
    and the number assigned equals a number that is matched. *)
Lemma new_object_number_repeats_2_53 :
  numbered_at (classic_pdf "9007199254740992") 9 16 /\
  object_number (classic_pdf "9007199254740992") 9 16 = 9007199254740992 /\
  Embedder.newObjNum (classic_pdf "9007199254740992") = Int 9007199254740992.
Proof.
  split; [|split; vm_compute; reflexivity].
  split; [lia|]. split; vm_compute; reflexivity.
Qed.

(** ** C1: the round trip *)

(** A PDF whose highest object number is 110 nowhere declares 111. *)
Lemma max_110_no_111 (F : buffer) :
  Embedder.maxObjNum F = Int 110 -> absent_from OBJ111 F 0.
Proof.
  intros EM q _ Hocc.
  change (firstn 9 (skipn q F) = bytes "111 0 obj") in Hocc.
  assert (E3 : firstn 3 (skipn q F) = bytes "111").
  { replace (firstn 3 (skipn q F)) with (firstn 3 (firstn 9 (skipn q F)))
      by (rewrite firstn_firstn; reflexivity).
    now rewrite Hocc. }
  assert (Hnum : numbered_at F q 3).
  { split; [lia|]. split.
    - now rewrite E3.
    - change (firstn 6 (skipn (q + 3) F) = bytes " 0 obj").
      replace (q + 3)%nat with (3 + q)%nat by lia.
      rewrite <- skipn_skipn, firstn_skipn_comm.
      change (3 + 6)%nat with 9%nat. now rewrite Hocc. }
  pose proof (maxObjNum_bound F 110 EM ltac:(lia) q 3 Hnum) as Hle.
  unfold object_number in Hle. rewrite E3 in Hle.
  vm_compute in Hle. now apply Hle.
Qed.

(** C1, amended.  The round trip holds when the embedder assigns the
    number 111, the only one the extractor looks for: for a PDF that
    contains ["xref"] and whose highest object number is 110, and a
    payload that begins with [FF D8], extraction from the embedder's
    output writes exactly the payload to [final_recovered.jpg].  The
    compressed payload must not contain ["\nendstream"], where the
    extractor would cut it short; zlib is taken to be lossless and to
    begin its output with [0x78]. *)
Theorem roundtrip_object_111 `{Runtime} `{!NumberLaws} `{!ZlibLaws}
    (F P t : buffer) :
  (exists p, occurs_at (bytes "xref") F p) ->
  Embedder.maxObjNum F = Int 110 ->
  P = xff :: xd8 :: t ->
  absent_from ([LF] ++ bytes "endstream") (deflateSync P) 0 ->
  len (deflateSync P) <= 2 ^ 53 ->
  exists out,
    Embedder.embedImageInPDF F P = Embedder.Written (Int 111) out /\
    Extractor.final_extract out
    = {| Extractor.console := [Extractor.ZlibDetected; Extractor.ValidJpegRecovered];
         Extractor.files := [("final_recovered.jpg"%string, P)];
         Extractor.ending := Extractor.Completed |}.
Proof.
  intros (p0 & Hx) EM EP Hc HL.
  destruct (indexOf_inv F (bytes "xref") O ltac:(discriminate))
    as [[_ Ha] | (p & _ & Hp)]; [exfalso; exact (Ha p0 ltac:(lia) Hx)|].
  destruct (embed_at_first_xref F P p Hp) as (_ & _ & Ew).
  rewrite (newObjNum_exact F 110 EM ltac:(lia)) in Ew. simpl (110 + 1) in Ew.
  eexists. split; [exact Ew|].
  pose proof (len_nonneg (deflateSync P)) as Hnn.
  destruct (object_grammar (Int 111) (deflateSync P) HL) as (Eobj & _ & _).
  rewrite Eobj, (toString_decimal 111) by lia.
  change (decimal 111 ++ bytes " 0 obj") with OBJ111.
  set (mid := [LF] ++ bytes "<< /Length " ++ decimal (len (deflateSync P))
                ++ bytes " /Filter /FlateDecode >>" ++ [LF]).
  set (tail := [LF] ++ bytes "endobj" ++ [LF] ++ skipn p F).
  transitivity
    (Extractor.final_extract
       (firstn p F ++ OBJ111 ++ mid ++ STREAM ++ deflateSync P
          ++ ENDSTREAM ++ tail)).
  - f_equal. unfold mid, tail, STREAM, ENDSTREAM, OBJ111.
    repeat rewrite <- app_assoc. reflexivity.
  - rewrite final_extract_shape.
    + now apply decode_deflated with t.
    + apply absent_firstn; [discriminate | now apply max_110_no_111].
    + unfold mid. intros HIn.
      apply in_app_or in HIn as [HIn | HIn]; [revert HIn; not_in|].
      apply in_app_or in HIn as [HIn | HIn]; [revert HIn; not_in|].
      apply in_app_or in HIn as [HIn | HIn]; [|revert HIn; not_in].
      destruct (decimal_spec (len (deflateSync P)) Hnn) as (_ & Hd & _).
      rewrite forallb_forall in Hd. apply Hd in HIn. discriminate.
    + exact Hc.
Qed.

Lemma roundtrip_object_111_witness :
  exists out,
    @Embedder.embedImageInPDF Stored.runtime (classic_pdf "110") jpeg_payload
    = Embedder.Written (Int 111) out /\
    @Extractor.final_extract Stored.runtime out
    = {| Extractor.console := [Extractor.ZlibDetected; Extractor.ValidJpegRecovered];
         Extractor.files := [("final_recovered.jpg"%string, jpeg_payload)];
         Extractor.ending := Extractor.Completed |}.
Proof.
  apply (@roundtrip_object_111 Stored.runtime stored_number_laws stored_zlib_laws
           (classic_pdf "110") jpeg_payload [xff; xe0; x00; x10]).
  - exists 47%nat. vm_compute. reflexivity.
  - vm_compute. reflexivity.
  - reflexivity.
  - apply indexOf_minus1_absent; [discriminate | vm_compute; reflexivity].
  - unfold len. simpl. lia.
Defined.

(** C1 as stated fails: for a well-formed PDF whose only object is 1 and
    a payload that begins with [FF D8], the embedder writes object 2, and
    the extractor, which looks for object 111, recovers nothing. *)
Lemma roundtrip_lost_for_object_2 :
  exists out,
    @Embedder.embedImageInPDF Stored.runtime (classic_pdf "1") jpeg_payload
    = Embedder.Written (Int 2) out /\
    @Extractor.final_extract Stored.runtime out
    = {| Extractor.console := [Extractor.CouldNotFindBoundaries];
         Extractor.files := [];
         Extractor.ending := Extractor.Exit 1 |}.
Proof. eexists. split; [vm_compute; reflexivity|]. vm_compute. reflexivity. Qed.

(** Why the compressed payload must not contain ["\nendstream"]: the
    extractor ends the stream at the first one it meets.  With the
    store-only codec the payload below is embedded whole as object 111,
    and only its first two bytes come back. *)
Remark roundtrip_cut_at_endstream :
  exists out,
    @Embedder.embedImageInPDF Stored.runtime (classic_pdf "110")
      ([xff; xd8] ++ [LF] ++ bytes "endstream" ++ [xff; xd9])
    = Embedder.Written (Int 111) out /\
    @Extractor.final_extract Stored.runtime out
    = {| Extractor.console := [Extractor.ZlibDetected; Extractor.ValidJpegRecovered];
         Extractor.files := [("final_recovered.jpg"%string, [xff; xd8])];
         Extractor.ending := Extractor.Completed |}.
Proof. eexists. split; [vm_compute; reflexivity|]. vm_compute. reflexivity. Qed.

(* ================================================================== *)
(** * Part VI.  Further properties of the two scripts                  *)
(* ================================================================== *)

(** ** What [indexOf] can return, for any start offset *)

Module IndexRange.
Import JS JSFacts.

Lemma search_range (needle : buffer) (l : buffer) (i : Z) :
  0 <= i -> search needle l i = -1 \/ i <= search needle l i.
Proof.
  intros Hi. destruct (search_inv needle l i) as [[E _] | (k & E & _)].
  - now left.
  - right. lia.
Qed.

(** [indexOf] returns [-1] or an index that is not negative, whatever the
    start offset (negative offsets count from the end). *)
Lemma indexOf_range (buf needle : buffer) (byteOffset : Z) :
  indexOf buf needle byteOffset = -1 \/ 0 <= indexOf buf needle byteOffset.
Proof.
  pose proof (len_nonneg buf) as Hb. pose proof (len_nonneg needle) as Hn.
  unfold indexOf.
  set (opt := IndexOfOffset (len buf) byteOffset (len needle)).
  assert (Hopt : -1 <= opt).
  { unfold opt, IndexOfOffset.
    destruct (byteOffset <? 0) eqn:E1.
    - destruct (Z.leb_spec 0 (byteOffset + len buf)); lia.
    - apply Z.ltb_ge in E1.
      destruct (byteOffset + len needle <=? len buf); [lia|].
      destruct (len needle =? 0); lia. }
  destruct (len needle =? 0); [lia|].
  destruct (len buf =? 0); [now left|].
  destruct (Z.leb_spec opt (-1)); [now left|].
  destruct (len buf <? len needle + opt); [now left|].
  destruct (search_range needle (skipn (Z.to_nat opt) buf) opt ltac:(lia));
    [now left | right; lia].
Qed.

End IndexRange.

(** ** The extractor's boundary check, declaratively *)

Section BoundaryCheck.
Context `{Runtime}.
Import IndexRange.

Lemma streamStart_at_least_6 (pdfData : buffer) (o : Z) :
  6 <= Extractor.streamStart pdfData o.
Proof.
  unfold Extractor.streamStart.
  destruct (indexOf_range pdfData (bytes "stream" ++ [LF]) o); lia.
Qed.

(** X1.  Whatever the buffer and the object start, [streamStart] is at
    least 6: [indexOf] gives [-1] or more, and line 37 adds 7.  So the
    test [streamStart === -1] of line 41 is false on every run, and the
    check of line 41 fires exactly when ["111 0 obj"] occurs nowhere or
    ["\nendstream"] occurs nowhere at or after [streamStart]. *)
Theorem boundary_check_meaning (pdfData : buffer) :
  (forall o, 6 <= Extractor.streamStart pdfData o) /\
  (Extractor.boundaries_missing pdfData = true <->
   absent_from (bytes "111 0 obj") pdfData 0 \/
   absent_from ([LF] ++ bytes "endstream") pdfData
     (Z.to_nat (Extractor.streamStart pdfData (Extractor.obj111Start pdfData)))).
Proof.
  pose proof (streamStart_at_least_6 pdfData) as H6.
  split; [exact H6|].
  unfold Extractor.boundaries_missing.
  set (o := Extractor.obj111Start pdfData).
  set (s := Extractor.streamStart pdfData o).
  specialize (H6 o). fold s in H6.
  assert (Es : s = Z.of_nat (Z.to_nat s)) by lia.
  destruct (Z.eqb_spec s (-1)); [lia|].
  rewrite orb_false_r, orb_true_iff, !Z.eqb_eq.
  assert (Ho : o = -1 <-> absent_from (bytes "111 0 obj") pdfData 0).
  { unfold o, Extractor.obj111Start. split.
    - apply (indexOf_minus1_absent _ _ O). discriminate.
    - apply (indexOf_absent _ _ O). discriminate. }
  assert (He : Extractor.endstreamPos pdfData s = -1 <->
               absent_from ([LF] ++ bytes "endstream") pdfData (Z.to_nat s)).
  { unfold Extractor.endstreamPos. rewrite Es at 1. split.
    - apply indexOf_minus1_absent. discriminate.
    - apply indexOf_absent. discriminate. }
  rewrite Ho, He. reflexivity.
Qed.

End BoundaryCheck.

(** ** The isolated stream *)

Section IsolatedStream.
Context `{Runtime}.
Import IndexRange.

(** An occurrence splits the buffer in three. *)
Lemma occurs_at_split (needle buf : buffer) (p : nat) :
  occurs_at needle buf p ->
  buf = firstn p buf ++ needle ++ skipn (p + length needle) buf.
Proof.
  intros Hocc. rewrite <- (firstn_skipn p buf) at 1. f_equal.
  rewrite <- (firstn_skipn (length needle) (skipn p buf)).
  rewrite skipn_skipn, Nat.add_comm. unfold occurs_at in Hocc.
  now rewrite Hocc.
Qed.

(** Where the check of line 41 passes, the two offsets of the slice. *)
Lemma boundaries_found_offsets (pdfData : buffer) :
  Extractor.boundaries_missing pdfData = false ->
  exists s e,
    Extractor.streamStart pdfData (Extractor.obj111Start pdfData) = Z.of_nat s /\
    Extractor.endstreamPos pdfData (Z.of_nat s) = Z.of_nat e /\
    first_occurrence ([LF] ++ bytes "endstream") pdfData s e /\
    Extractor.streamData pdfData = firstn (e - s) (skipn s pdfData).
Proof.
  intros Hb.
  pose proof (streamStart_at_least_6 pdfData (Extractor.obj111Start pdfData)) as H6.
  set (s := Z.to_nat (Extractor.streamStart pdfData (Extractor.obj111Start pdfData))).
  assert (Es : Extractor.streamStart pdfData (Extractor.obj111Start pdfData)
               = Z.of_nat s) by (unfold s; lia).
  unfold Extractor.boundaries_missing in Hb. rewrite Es in Hb.
  apply orb_false_iff in Hb as (_ & He). apply Z.eqb_neq in He.
  destruct (indexOf_inv pdfData ([LF] ++ bytes "endstream") s ltac:(discriminate))
    as [[E _] | (e & Ee & He')]; [contradiction|].
  exists s, e. repeat split; try assumption; try apply He'.
  unfold Extractor.streamData. rewrite Es.
  change (JS.indexOf pdfData ([LF] ++ bytes "endstream") (Z.of_nat s) = Z.of_nat e)
    in Ee.
  unfold Extractor.endstreamPos. rewrite Ee.
  apply subarray_in_range.
  destruct He' as (Hse & Hocc & _).
  apply occurs_at_bound in Hocc; [lia | discriminate].
Qed.

Lemma stream_slice_facts (pdfData : buffer) :
  Extractor.boundaries_missing pdfData = false ->
  exists s e,
    Extractor.streamStart pdfData (Extractor.obj111Start pdfData) = Z.of_nat s /\
    first_occurrence ([LF] ++ bytes "endstream") pdfData s e /\
    skipn s pdfData
    = Extractor.streamData pdfData ++ ([LF] ++ bytes "endstream")
        ++ skipn (e + 10) pdfData /\
    length (Extractor.streamData pdfData) = (e - s)%nat /\
    absent_from ([LF] ++ bytes "endstream") (Extractor.streamData pdfData) 0.
Proof.
  intros Hb.
  destruct (boundaries_found_offsets pdfData Hb) as (s & e & Es & _ & He & Ed).
  exists s, e. destruct He as (Hse & Hocc & Hmin).
  pose proof (occurs_at_bound ([LF] ++ bytes "endstream") pdfData e
                ltac:(discriminate) Hocc) as Hbound.
  simpl length in Hbound.
  assert (Hlen : length (Extractor.streamData pdfData) = (e - s)%nat).
  { rewrite Ed, length_firstn, length_skipn. lia. }
  repeat split; try assumption.
  - rewrite Ed. rewrite <- (firstn_skipn (e - s) (skipn s pdfData)) at 1.
    f_equal. rewrite skipn_skipn. replace (e - s + s)%nat with e by lia.
    rewrite <- (firstn_skipn 10 (skipn e pdfData)) at 1.
    rewrite skipn_skipn. f_equal; [exact Hocc | f_equal; lia].
  - intros q _ Hq.
    pose proof (occurs_at_bound ([LF] ++ bytes "endstream") _ q
                  ltac:(discriminate) Hq) as Hqb.
    simpl length in Hqb. rewrite Hlen in Hqb.
    apply (Hmin (s + q)%nat ltac:(lia)).
    apply occurs_at_skipn.
    rewrite <- (firstn_skipn (e - s) (skipn s pdfData)).
    apply SpliceFacts.occurs_at_app_inside; [|now rewrite <- Ed].
    rewrite <- Ed, Hlen. simpl length. lia.
Qed.

(** X2.  When the check of line 41 passes, the isolated stream is the
    part of the buffer from [streamStart] up to the first ["\nendstream"]
    at or after it; that marker follows the stream at once, and the
    stream itself contains no ["\nendstream"]. *)
Theorem isolated_stream_ends_at_first_marker (pdfData : buffer) :
  Extractor.boundaries_missing pdfData = false ->
  exists s e,
    Extractor.streamStart pdfData (Extractor.obj111Start pdfData) = Z.of_nat s /\
    first_occurrence ([LF] ++ bytes "endstream") pdfData s e /\
    skipn s pdfData
    = Extractor.streamData pdfData ++ ([LF] ++ bytes "endstream")
        ++ skipn (e + 10) pdfData /\
    length (Extractor.streamData pdfData) = (e - s)%nat /\
    absent_from ([LF] ++ bytes "endstream") (Extractor.streamData pdfData) 0.
Proof. apply stream_slice_facts. Qed.

(** X3.  When moreover ["stream\n"] was found after the object start, the
    buffer reads: something, ["111 0 obj"] at its first occurrence,
    something without ["stream\n"], ["stream\n"], the isolated stream,
    ["\nendstream"], something. *)
Theorem extracted_stream_lies_between_markers (pdfData : buffer) :
  Extractor.boundaries_missing pdfData = false ->
  JS.indexOf pdfData (bytes "stream" ++ [LF]) (Extractor.obj111Start pdfData) <> -1 ->
  exists o i tail,
    first_occurrence (bytes "111 0 obj") pdfData 0 o /\
    first_occurrence (bytes "stream" ++ [LF]) pdfData o i /\
    (o + 9 <= i)%nat /\
    pdfData
    = firstn o pdfData ++ bytes "111 0 obj"
        ++ firstn (i - (o + 9)) (skipn (o + 9) pdfData)
        ++ (bytes "stream" ++ [LF])
        ++ Extractor.streamData pdfData
        ++ ([LF] ++ bytes "endstream") ++ tail.
Proof.
  intros Hb Hfound.
  destruct (stream_slice_facts pdfData Hb)
    as (s & e & Es & _ & Hskip & _ & _).
  assert (Ho : Extractor.boundaries_missing pdfData = false) by exact Hb.
  unfold Extractor.boundaries_missing in Ho.
  apply orb_false_iff in Ho as (Ho & _). apply orb_false_iff in Ho as (Ho & _).
  apply Z.eqb_neq in Ho.
  destruct (indexOf_inv pdfData (bytes "111 0 obj") O ltac:(discriminate))
    as [[E _] | (o & Eo & Hfo)]; [contradiction|].
  change (Extractor.obj111Start pdfData = Z.of_nat o) in Eo.
  rewrite Eo in Hfound, Es.
  destruct (indexOf_inv pdfData (bytes "stream" ++ [LF]) o ltac:(discriminate))
    as [[E _] | (i & Ei & Hfi)]; [contradiction|].
  unfold Extractor.streamStart in Es. rewrite Ei in Es.
  assert (s = (i + 7)%nat) as -> by lia.
  destruct Hfo as (Ho0 & Hoo & Homin). destruct Hfi as (Hoi & Hio & Himin).
  assert (Hgap : (o + 9 <= i)%nat).
  { destruct (Nat.le_gt_cases (o + 9) i) as [|Hlt]; [assumption|]. exfalso.
    pose proof (RegexFacts.occurs_at_nth _ _ _ O Hio ltac:(simpl; lia)) as Hs.
    pose proof (RegexFacts.occurs_at_nth _ _ _ (i - o) Hoo ltac:(simpl; lia)) as Hj.
    rewrite Nat.add_0_r in Hs. replace (o + (i - o))%nat with i in Hj by lia.
    rewrite Hs in Hj. simpl nth_error at 1 in Hj.
    remember (i - o)%nat as j eqn:Ej.
    assert (Hj9 : (j < 9)%nat) by lia.
    do 9 (destruct j as [|j]; [simpl in Hj; discriminate Hj|]). lia. }
  exists o, i, (skipn (e + 10) pdfData).
  split; [repeat split; assumption|]. split; [repeat split; assumption|].
  split; [assumption|].
  rewrite (occurs_at_split _ _ _ Hoo) at 1. f_equal. f_equal.
  simpl length.
  rewrite <- (firstn_skipn (i - (o + 9)) (skipn (o + 9) pdfData)) at 1.
  f_equal. rewrite skipn_skipn. replace (i - (o + 9) + (o + 9))%nat with i by lia.
  rewrite <- (firstn_skipn 7 (skipn i pdfData)) at 1.
  rewrite skipn_skipn. replace (7 + i)%nat with (i + 7)%nat by lia.
  rewrite Hskip. f_equal. exact Hio.
Qed.

End IsolatedStream.

Lemma isolated_stream_ends_at_first_marker_witness :
  exists s e,
    Extractor.streamStart truncated_stream_pdf
      (Extractor.obj111Start truncated_stream_pdf) = Z.of_nat s /\
    first_occurrence ([LF] ++ bytes "endstream") truncated_stream_pdf s e /\
    skipn s truncated_stream_pdf
    = Extractor.streamData truncated_stream_pdf ++ ([LF] ++ bytes "endstream")
        ++ skipn (e + 10) truncated_stream_pdf /\
    length (Extractor.streamData truncated_stream_pdf) = (e - s)%nat /\
    absent_from ([LF] ++ bytes "endstream")
      (Extractor.streamData truncated_stream_pdf) 0.
Proof. exact (isolated_stream_ends_at_first_marker truncated_stream_pdf eq_refl). Defined.

Lemma extracted_stream_lies_between_markers_witness :
  exists o i tail,
    first_occurrence (bytes "111 0 obj") truncated_stream_pdf 0 o /\
    first_occurrence (bytes "stream" ++ [LF]) truncated_stream_pdf o i /\
    (o + 9 <= i)%nat /\
    truncated_stream_pdf
    = firstn o truncated_stream_pdf ++ bytes "111 0 obj"
        ++ firstn (i - (o + 9)) (skipn (o + 9) truncated_stream_pdf)
        ++ (bytes "stream" ++ [LF])
        ++ Extractor.streamData truncated_stream_pdf
        ++ ([LF] ++ bytes "endstream") ++ tail.
Proof.
  apply (extracted_stream_lies_between_markers truncated_stream_pdf eq_refl).
  vm_compute. discriminate.
Defined.

(** ** The outcomes of an extraction run *)

(** Case analysis on every test of the script that is left in the goal. *)
Ltac each_branch :=
  repeat match goal with
         | |- context [match ?c with _ => _ end] => destruct c
         end.

Section Outcomes.
Context `{Runtime}.

(** The JPEG test of line 73, as a property of the bytes. *)
Lemma jpeg_test (d : buffer) :
  match at_index d 0, at_index d 1 with
  | Some b0, Some b1 => Byte.eqb b0 xff && Byte.eqb b1 xd8
  | _, _ => false
  end = true <-> exists t, d = xff :: xd8 :: t.
Proof.
  unfold at_index. split.
  - destruct d as [|b0 [|b1 t]]; simpl; try discriminate.
    rewrite andb_true_iff, !byte_eqb_eq. intros [-> ->]. now exists t.
  - intros (t & ->). reflexivity.
Qed.

(** X4.  [final_recovered.jpg] is written only after every test has
    passed: the boundaries were found, the isolated stream begins with
    [0x78], it inflates to the very bytes written, and these begin with
    [FF D8]; nothing else is written in that run. *)
Theorem recovered_file_sound (pdfData d : buffer) :
  In ("final_recovered.jpg"%string, d)
     (Extractor.files (Extractor.final_extract pdfData)) ->
  Extractor.boundaries_missing pdfData = false /\
  at_index (Extractor.streamData pdfData) 0 = Some x78 /\
  inflateSync (Extractor.streamData pdfData) = Some d /\
  (exists t, d = xff :: xd8 :: t) /\
  Extractor.final_extract pdfData
  = {| Extractor.console := [Extractor.ZlibDetected; Extractor.ValidJpegRecovered];
       Extractor.files := [("final_recovered.jpg"%string, d)];
       Extractor.ending := Extractor.Completed |}.
Proof.
  unfold Extractor.final_extract, Extractor.decode.
  destruct (Extractor.boundaries_missing pdfData); [intros []|].
  set (sd := Extractor.streamData pdfData).
  destruct (at_index sd 0) as [b|] eqn:E0; [|intros []].
  destruct (Byte.eqb b x78) eqn:Eb.
  - apply byte_eqb_eq in Eb. subst b.
    destruct (inflateSync sd) as [dec|] eqn:Ei.
    + destruct (match at_index dec 0, at_index dec 1 with
                | Some b0, Some b1 => Byte.eqb b0 xff && Byte.eqb b1 xd8
                | _, _ => false
                end) eqn:Ej.
      * intros [[= <-] | []]. apply jpeg_test in Ej. auto.
      * intros [[=] | []].
    + intros [[=] | []].
  - intros [[=] | []].
Qed.

(** X5.  A run ends with the uncaught TypeError exactly when the check
    of line 41 passes and the isolated stream is empty. *)
Theorem crash_exactly_on_empty_stream (pdfData : buffer) :
  Extractor.ending (Extractor.final_extract pdfData) = Extractor.UncaughtTypeError
  <-> Extractor.boundaries_missing pdfData = false /\
      Extractor.streamData pdfData = [].
Proof.
  unfold Extractor.final_extract, Extractor.decode.
  destruct (Extractor.boundaries_missing pdfData).
  - simpl. split; [discriminate | intros [? _]; discriminate].
  - destruct (Extractor.streamData pdfData) as [|b t]; cbn [at_index nth_error].
    + simpl. split; auto.
    + each_branch; simpl; (split; [discriminate | intros [_ ?]; discriminate]).
Qed.

(** X6.  Every run writes at most one file; it writes none exactly when
    it does not run to its end; and it ends with [process.exit(1)]
    exactly when the check of line 41 fires (no other exit code is
    used). *)
Theorem one_file_unless_failed (pdfData : buffer) :
  let r := Extractor.final_extract pdfData in
  (length (Extractor.files r) <= 1)%nat /\
  (Extractor.files r = [] <-> Extractor.ending r <> Extractor.Completed) /\
  (forall c, Extractor.ending r = Extractor.Exit c <->
             c = 1 /\ Extractor.boundaries_missing pdfData = true).
Proof.
  unfold Extractor.final_extract, Extractor.decode.
  destruct (Extractor.boundaries_missing pdfData).
  - simpl. split; [lia|]. split.
    + split; [discriminate | reflexivity].
    + intros c. split; [intros [= <-]; auto | intros [-> _]; reflexivity].
  - each_branch; simpl; (split; [lia|]); split;
      try (intros c; split; [discriminate | intros [_ ?]; discriminate]);
      (split;
       [ intros E; first [discriminate E | intro; discriminate]
       | intros Hc; first [reflexivity | exfalso; apply Hc; reflexivity] ]).
Qed.

(** X7.  When the stream inflates to bytes that do not begin with
    [FF D8] (fewer than two bytes included), the run says so, writes the
    inflated bytes to [mystery_data.bin], and runs to its end. *)
Theorem not_jpeg_saved_as_mystery (pdfData d : buffer) :
  Extractor.boundaries_missing pdfData = false ->
  at_index (Extractor.streamData pdfData) 0 = Some x78 ->
  inflateSync (Extractor.streamData pdfData) = Some d ->
  (forall t, d <> xff :: xd8 :: t) ->
  Extractor.final_extract pdfData
  = {| Extractor.console := [Extractor.ZlibDetected; Extractor.NotAJpeg];
       Extractor.files := [("mystery_data.bin"%string, d)];
       Extractor.ending := Extractor.Completed |}.
Proof.
  intros Hb H78 Hinf Hnot. unfold Extractor.final_extract, Extractor.decode.
  rewrite Hb, H78, Hinf. simpl (Byte.eqb x78 x78). cbv iota.
  destruct (match at_index d 0, at_index d 1 with
            | Some b0, Some b1 => Byte.eqb b0 xff && Byte.eqb b1 xd8
            | _, _ => false
            end) eqn:Ej; [|reflexivity].
  apply jpeg_test in Ej as (t & ->). now contradiction (Hnot t).
Qed.

End Outcomes.

(** An object 111 whose stream is a valid compressed JPEG payload. *)
Definition hidden_jpeg_pdf : buffer :=
  bytes "111 0 obj" ++ [LF] ++ bytes "<< /Length 8 /Filter /FlateDecode >>"
    ++ [LF] ++ bytes "stream" ++ [LF] ++ Stored.deflate jpeg_payload
    ++ [LF] ++ bytes "endstream" ++ [LF] ++ bytes "endobj" ++ [LF].

(** An object 111 whose stream inflates to nothing. *)
Definition hidden_nothing_pdf : buffer :=
  bytes "111 0 obj" ++ [LF] ++ bytes "<< /Length 2 /Filter /FlateDecode >>"
    ++ [LF] ++ bytes "stream" ++ [LF] ++ Stored.deflate []
    ++ [LF] ++ bytes "endstream" ++ [LF] ++ bytes "endobj" ++ [LF].

Lemma recovered_file_sound_witness :
  Extractor.boundaries_missing hidden_jpeg_pdf = false /\
  at_index (Extractor.streamData hidden_jpeg_pdf) 0 = Some x78 /\
  @inflateSync Stored.runtime (Extractor.streamData hidden_jpeg_pdf)
  = Some jpeg_payload /\
  (exists t, jpeg_payload = xff :: xd8 :: t) /\
  @Extractor.final_extract Stored.runtime hidden_jpeg_pdf
  = {| Extractor.console := [Extractor.ZlibDetected; Extractor.ValidJpegRecovered];
       Extractor.files := [("final_recovered.jpg"%string, jpeg_payload)];
       Extractor.ending := Extractor.Completed |}.
Proof.
  apply (@recovered_file_sound Stored.runtime hidden_jpeg_pdf jpeg_payload).
  vm_compute. left. reflexivity.
Defined.

Lemma not_jpeg_saved_as_mystery_witness :
  @Extractor.final_extract Stored.runtime hidden_nothing_pdf
  = {| Extractor.console := [Extractor.ZlibDetected; Extractor.NotAJpeg];
       Extractor.files := [("mystery_data.bin"%string, [])];
       Extractor.ending := Extractor.Completed |}.
Proof.
  apply (@not_jpeg_saved_as_mystery Stored.runtime hidden_nothing_pdf []
           eq_refl eq_refl eq_refl).
  intros t. discriminate.
Defined.

(** ** The scan for the highest object number, further *)

Section ScanFurther.
Import Embedder.

(** Each iteration moves [lastIndex] at least seven bytes forward, so
    the loop is over after [(length - lastIndex) / 7 + 1] calls of
    [exec]: any larger bound on the iterations gives the same result. *)
Lemma loop_fuel_enough (s : buffer) :
  forall f1 f2 i mx,
    (length s < 7 * f1 + i)%nat -> (length s < 7 * f2 + i)%nat ->
    maxObjNum_loop f1 s i mx = maxObjNum_loop f2 s i mx.
Proof.
  assert (Hpast : forall f i mx, (length s < i)%nat -> maxObjNum_loop f s i mx = mx).
  { intros [|f] i mx Hi; [reflexivity|]. cbn [maxObjNum_loop]. unfold exec.
    destruct (Nat.ltb_spec (length s) i); [reflexivity | lia]. }
  induction f1 as [|f1 IH]; intros f2 i mx H1 H2.
  - rewrite !Hpast by lia. reflexivity.
  - destruct f2 as [|f2]; [rewrite !Hpast by lia; reflexivity|].
    cbn [maxObjNum_loop].
    destruct (exec s i) as [[g e]|] eqn:Hex; [|reflexivity].
    apply exec_some in Hex as (m & n & Him & -> & Hm & _).
    apply match_here_bounds in Hm as (H7 & _).
    apply IH; lia.
Qed.

(** X8.  The [while] loop of lines 52-55 ends because [exec] returns
    [null], after at most [length / 7 + 1] iterations: with any bound on
    the iterations beyond that, the loop returns [maxObjNum]. *)
Theorem scan_loop_terminates (pdfData : buffer) (fuel : nat) :
  (length pdfData < 7 * fuel)%nat ->
  maxObjNum_loop fuel pdfData O (Int 0) = maxObjNum pdfData.
Proof.
  intros Hf. unfold maxObjNum. apply loop_fuel_enough; lia.
Qed.

Lemma scan_loop_terminates_witness :
  maxObjNum_loop 30 (classic_pdf "20") O (Int 0) = maxObjNum (classic_pdf "20").
Proof. apply scan_loop_terminates. vm_compute. lia. Defined.

(** Where [exec] finds nothing from the start, no run of digits is
    followed by [" 0 obj"]. *)
Lemma exec_none_no_numbered (s : buffer) :
  exec s O = None -> forall a k, ~ numbered_at s a k.
Proof.
  intros Hex a k Hnum.
  destruct (numbered_run_match s a k Hnum) as (r & pre & _ & _ & _ & Hm).
  rewrite (exec_none s O Hex r ltac:(lia)) in Hm. discriminate.
Qed.

(** X9.  A PDF in which no run of digits is followed by [" 0 obj"] gets
    [maxObjNum = 0], and its new object is number 1. *)
Theorem first_object_is_number_1 (pdfData : buffer) :
  (forall a k, ~ numbered_at pdfData a k) ->
  maxObjNum pdfData = Int 0 /\ newObjNum pdfData = Int 1.
Proof.
  intros Hnone.
  destruct (maxObjNum_exact pdfData) as (M & EM & HM).
  { intros a k Hnum. now contradiction (Hnone a k). }
  destruct (maxObjNum_attained pdfData M EM ltac:(lia)) as [-> | (a & k & Hnum & _)].
  - split; [exact EM|]. now apply (newObjNum_exact pdfData 0).
  - now contradiction (Hnone a k).
Qed.

(** A PDF without any object. *)
Definition objectless_pdf : buffer :=
  bytes "%PDF-1.4" ++ [LF] ++ bytes "xref" ++ [LF] ++ bytes "0 1" ++ [LF]
    ++ bytes "0000000000 65535 f " ++ [LF]
    ++ bytes "trailer" ++ [LF] ++ bytes "<< /Size 1 >>" ++ [LF]
    ++ bytes "startxref" ++ [LF] ++ bytes "9" ++ [LF] ++ bytes "%%EOF" ++ [LF].

Lemma first_object_is_number_1_witness :
  maxObjNum objectless_pdf = Int 0 /\ newObjNum objectless_pdf = Int 1.
Proof.
  apply first_object_is_number_1.
  apply exec_none_no_numbered. vm_compute. reflexivity.
Defined.

(** Rounding at most doubles a non-negative integer. *)
Lemma round_double_at_most_twice (m : Z) :
  0 <= m ->
  match round_double m with
  | Int v => v <= 2 * m
  | Infinity => 2 ^ 1024 <= 2 * m
  end.
Proof.
  intros Hm. unfold round_double.
  destruct (Z.ltb_spec m (2 ^ 53)); [lia|].
  set (e := Z.log2 m - 52). set (q := m / 2 ^ e).
  assert (Hlog : 53 <= Z.log2 m).
  { change 53 with (Z.log2 (2 ^ 53)). apply Z.log2_le_mono. lia. }
  assert (Hpos : 0 < 2 ^ e) by (apply Z.pow_pos_nonneg; unfold e; lia).
  assert (Hpe : 2 ^ e <= m).
  { apply Z.le_trans with (2 ^ Z.log2 m).
    - apply Z.pow_le_mono_r; unfold e; lia.
    - apply Z.log2_spec. lia. }
  assert (Hq : 2 ^ e * q <= m) by (apply Z.mul_div_le; lia).
  assert (Hv : forall q', q' <= q + 1 -> q' * 2 ^ e <= 2 * m) by (intros; nia).
  set (q' := if m mod 2 ^ e <? 2 ^ (e - 1) then q
             else if 2 ^ (e - 1) <? m mod 2 ^ e then q + 1
             else if Z.even q then q else q + 1).
  assert (Hq' : q' <= q + 1).
  { unfold q'. destruct (m mod 2 ^ e <? 2 ^ (e - 1)); [lia|].
    destruct (2 ^ (e - 1) <? m mod 2 ^ e); [lia|].
    destruct (Z.even q); lia. }
  specialize (Hv q' Hq').
  destruct (Z.leb_spec (2 ^ 1024) (q' * 2 ^ e)); lia.
Qed.

(** X10.  Whatever the input, the number assigned is never 0: it is an
    integer from 1 on, or it is [Infinity], and [Infinity] only when some
    run of digits followed by [" 0 obj"] denotes an integer of at least
    [2^1022] (a number of more than 300 digits). *)
Theorem new_object_number_positive (pdfData : buffer) :
  (exists n, newObjNum pdfData = Int n /\ 1 <= n) \/
  (newObjNum pdfData = Infinity /\
   exists a k, numbered_at pdfData a k /\ 2 ^ 1022 <= object_number pdfData a k).
Proof.
  assert (E24 : 2 ^ 1024 = 4 * 2 ^ 1022)
    by (change 1024 with (2 + 1022); rewrite Z.pow_add_r by lia; reflexivity).
  assert (Hsrc : forall x, maxObjNum pdfData = x -> x <> Int 0 ->
            exists a k, numbered_at pdfData a k /\
                        0 <= object_number pdfData a k /\
                        round_double (object_number pdfData a k) = x).
  { intros x Ex Hx. unfold maxObjNum in Ex.
    destruct (loop_sound pdfData (S (length pdfData)) O (Int 0))
      as [E0 | (m & g & n & Hm & Eg)]; [congruence|].
    apply match_numbered in Hm as (k & Hnum & ->).
    exists m, k. split; [assumption|]. split.
    - apply decimal_value_nonneg. apply Hnum.
    - rewrite <- Ex, Eg. reflexivity. }
  unfold newObjNum.
  destruct (maxObjNum pdfData) as [M|] eqn:EM.
  - pose proof (maxObjNum_nonneg pdfData M EM) as HM. simpl.
    pose proof (round_double_at_most_twice (M + 1) ltac:(lia)) as Hr.
    destruct (round_double (M + 1)) as [v|] eqn:Ev.
    + left. exists v. split; [reflexivity|].
      destruct (Z.le_gt_cases (M + 1) (2 ^ 53)) as [Hs | Hl].
      * rewrite round_double_exact in Ev by lia. injection Ev as <-. lia.
      * apply round_double_large in Ev; lia.
    + right. split; [reflexivity|].
      assert (Hpos : 0 < 2 ^ 1022) by (apply Z.pow_pos_nonneg; lia).
      destruct (Hsrc (Int M) eq_refl) as (a & k & Hnum & H0 & Hround).
      { intros [= ->]. lia. }
      exists a, k. split; [assumption|].
      pose proof (round_double_at_most_twice _ H0) as Hr'.
      rewrite Hround in Hr'. lia.
  - right. split; [reflexivity|].
    destruct (Hsrc Infinity eq_refl ltac:(discriminate))
      as (a & k & Hnum & H0 & Hround).
    exists a, k. split; [assumption|].
    pose proof (round_double_at_most_twice _ H0) as Hr'.
    rewrite Hround in Hr'. lia.
Qed.

End ScanFurther.

(** ** What embedding keeps *)

Section EmbeddingKeeps.
Context `{Runtime}.
Import Embedder.

(** What a successful call has done. *)
Lemma embed_written_inv (pdfData imageData : buffer) (n : number) (out : buffer) :
  embedImageInPDF pdfData imageData = Written n out ->
  exists p,
    first_occurrence (bytes "xref") pdfData 0 p /\
    (p <= length pdfData)%nat /\
    n = newObjNum pdfData /\
    out = firstn p pdfData ++ newObject n (deflateSync imageData)
            ++ skipn p pdfData.
Proof.
  intros Hw.
  destruct (indexOf_inv pdfData (bytes "xref") O ltac:(discriminate))
    as [[E _] | (p & _ & Hp)].
  - unfold embedImageInPDF, xrefPos in Hw.
    change (Z.of_nat 0) with 0 in E. rewrite E in Hw. discriminate.
  - destruct (embed_at_first_xref pdfData imageData p Hp) as (_ & Hle & Ew).
    rewrite Ew in Hw. injection Hw as <- <-. exists p. auto.
Qed.

(** Occurrences on either side of the insertion point survive a splice. *)
Lemma occurs_before_splice (needle F rest : buffer) (p q : nat) :
  occurs_at needle F q -> (q + length needle <= p)%nat -> (p <= length F)%nat ->
  occurs_at needle (firstn p F ++ rest) q.
Proof.
  intros Hocc Hq Hp.
  apply occurs_at_app_inside; [rewrite length_firstn; lia|].
  rewrite <- (firstn_skipn p F) in Hocc.
  apply occurs_at_app_inside in Hocc; [exact Hocc | rewrite length_firstn; lia].
Qed.

Lemma occurs_after_splice (needle F new : buffer) (p q : nat) :
  occurs_at needle F q -> (p <= q)%nat -> (p <= length F)%nat ->
  occurs_at needle (firstn p F ++ new ++ skipn p F) (q + length new).
Proof.
  intros Hocc Hq Hp.
  assert (Lf : length (firstn p F) = p) by (rewrite length_firstn; lia).
  replace (q + length new)%nat
    with (length (firstn p F) + (length new + (q - p)))%nat by lia.
  apply occurs_at_app_skip, occurs_at_app_skip, occurs_at_skipn.
  now replace (p + (q - p))%nat with q by lia.
Qed.

(** X11.  Embedding keeps every occurrence of every byte pattern that
    does not span the insertion point: before it, at the same offset;
    from it on, moved by the length of the new object.  So every object
    declaration, the [xref] table and the trailer are still in the
    output. *)
Theorem embedding_keeps_occurrences
    (pdfData imageData : buffer) (n : number) (out needle : buffer) (q : nat) :
  embedImageInPDF pdfData imageData = Written n out ->
  occurs_at needle pdfData q ->
  (Z.of_nat (q + length needle) <= xrefPos pdfData -> occurs_at needle out q) /\
  (xrefPos pdfData <= Z.of_nat q ->
   occurs_at needle out
     (q + length (newObject n (deflateSync imageData)))).
Proof.
  intros Hw Hocc.
  destruct (embed_written_inv _ _ _ _ Hw) as (p & Hp & Hle & _ & ->).
  destruct (embed_at_first_xref pdfData imageData p Hp) as (-> & _ & _).
  split; intros Hq.
  - apply occurs_before_splice with (p := p); auto. lia.
  - apply occurs_after_splice; auto. lia.
Qed.

(** X12.  The output of a successful embedding can be embedded into
    again: its [xref] is still there, so the second call does not
    throw. *)
Theorem embedding_again_succeeds
    (pdfData imageData imageData2 : buffer) (n : number) (out : buffer) :
  embedImageInPDF pdfData imageData = Written n out ->
  exists n2 out2, embedImageInPDF out imageData2 = Written n2 out2.
Proof.
  intros Hw.
  destruct (embed_written_inv _ _ _ _ Hw) as (p & Hp & Hle & _ & ->).
  destruct Hp as (_ & Hocc & _).
  pose proof (occurs_after_splice _ _ (newObject n (deflateSync imageData))
                p p Hocc ltac:(lia) Hle) as Hocc'.
  destruct (indexOf_inv
              (firstn p pdfData ++ newObject n (deflateSync imageData)
                 ++ skipn p pdfData) (bytes "xref") O ltac:(discriminate))
    as [[_ Ha] | (p' & _ & Hp')].
  - exfalso. exact (Ha _ ltac:(lia) Hocc').
  - destruct (embed_at_first_xref _ imageData2 p' Hp') as (_ & _ & Ew).
    eauto.
Qed.

(** X13.  The size of the output: the input, the two numbers as printed,
    the compressed payload, and 68 bytes of fixed text (50 in the header,
    18 in the footer). *)
Theorem embedded_output_length
    (pdfData imageData : buffer) (n : number) (out : buffer) :
  embedImageInPDF pdfData imageData = Written n out ->
  length out
  = (length pdfData
     + length (Number_toString n)
     + length (Number_toString (Int (len (deflateSync imageData))))
     + length (deflateSync imageData) + 68)%nat.
Proof.
  intros Hw.
  destruct (embed_written_inv _ _ _ _ Hw) as (p & _ & Hle & _ & ->).
  unfold newObject, objHeader, objFooter.
  rewrite !length_app, length_firstn, length_skipn. simpl length. lia.
Qed.

(** X14.  The declaration of the new object is itself matched by the
    next scan: when a file is embedded into a second time (all numbers
    below [2^53]), the second object gets a strictly greater number than
    the first. *)
Theorem second_embedding_number_greater `{!NumberLaws}
    (pdfData imageData : buffer) (N : Z) (out : buffer) :
  embedImageInPDF pdfData imageData = Written (Int N) out ->
  0 <= N <= 2 ^ 53 ->
  (forall a k, numbered_at out a k -> object_number out a k < 2 ^ 53) ->
  exists N', newObjNum out = Int N' /\ N < N'.
Proof.
  intros Hw HN Hsafe.
  destruct (embed_written_inv _ _ _ _ Hw) as (p & _ & Hle & _ & Eout).
  destruct (decimal_spec N ltac:(lia)) as (Hv & Hd & Hne).
  assert (Lf : length (firstn p pdfData) = p) by (rewrite length_firstn; lia).
  assert (Hnum : numbered_at out p (length (decimal N)) /\
                 object_number out p (length (decimal N)) = N).
  { unfold newObject, objHeader in Eout.
    rewrite toString_decimal in Eout by lia.
    set (rest := [LF] ++ bytes "<< /Length "
                   ++ Number_toString (Int (len (deflateSync imageData)))
                   ++ bytes " /Filter /FlateDecode >>" ++ [LF]
                   ++ bytes "stream" ++ [LF]
                   ++ deflateSync imageData ++ objFooter ++ skipn p pdfData).
    assert (Eout' : out = firstn p pdfData ++ decimal N ++ obj_literal ++ rest).
    { rewrite Eout. unfold rest. repeat rewrite <- app_assoc. reflexivity. }
    assert (Edig : occurs_at (decimal N) out p).
    { rewrite Eout'.
      pose proof (occurs_at_app (decimal N) (firstn p pdfData)
                    (obj_literal ++ rest)) as Ho.
      now rewrite Lf in Ho. }
    assert (Elit : occurs_at obj_literal out (p + length (decimal N))).
    { rewrite Eout', app_assoc.
      pose proof (occurs_at_app obj_literal (firstn p pdfData ++ decimal N) rest)
        as Ho.
      now rewrite length_app, Lf in Ho. }
    unfold occurs_at in Edig.
    split; [|unfold object_number; now rewrite Edig].
    split; [destruct (decimal N); [congruence | simpl; lia]|].
    split; [now rewrite Edig | exact Elit]. }
  destruct Hnum as (Hnum & Hval).
  destruct (maxObjNum_exact out Hsafe) as (M & EM & HM).
  pose proof (maxObjNum_bound out M EM ltac:(lia) _ _ Hnum) as Hle'.
  exists (M + 1). split; [apply newObjNum_exact; [exact EM | lia] | lia].
Qed.

End EmbeddingKeeps.

Lemma embedding_keeps_occurrences_witness :
  occurs_at (bytes "trailer")
    (firstn 46 (classic_pdf "20")
       ++ @Embedder.newObject Stored.runtime (Int 21) (Stored.deflate jpeg_payload)
       ++ skipn 46 (classic_pdf "20"))
    (95 + length (@Embedder.newObject Stored.runtime (Int 21) (Stored.deflate jpeg_payload))).
Proof.
  refine (proj2 (@embedding_keeps_occurrences Stored.runtime
                   (classic_pdf "20") jpeg_payload (Int 21) _ (bytes "trailer") 95
                   _ _) _).
  - vm_compute. reflexivity.
  - vm_compute. reflexivity.
  - vm_compute. discriminate.
Defined.

Lemma embedding_again_succeeds_witness :
  exists n2 out2,
    @Embedder.embedImageInPDF Stored.runtime
      (firstn 46 (classic_pdf "20")
         ++ @Embedder.newObject Stored.runtime (Int 21) (Stored.deflate jpeg_payload)
         ++ skipn 46 (classic_pdf "20"))
      jpeg_payload
    = Embedder.Written n2 out2.
Proof.
  apply (@embedding_again_succeeds Stored.runtime
           (classic_pdf "20") jpeg_payload jpeg_payload (Int 21)).
  vm_compute. reflexivity.
Defined.

Lemma embedded_output_length_witness :
  length (firstn 46 (classic_pdf "20")
            ++ @Embedder.newObject Stored.runtime (Int 21) (Stored.deflate jpeg_payload)
            ++ skipn 46 (classic_pdf "20"))
  = (length (classic_pdf "20")
     + length (@Number_toString Stored.runtime (Int 21))
     + length (@Number_toString Stored.runtime
                 (Int (len (@deflateSync Stored.runtime jpeg_payload))))
     + length (@deflateSync Stored.runtime jpeg_payload) + 68)%nat.
Proof.
  apply (@embedded_output_length Stored.runtime (classic_pdf "20") jpeg_payload
           (Int 21)).
  vm_compute. reflexivity.
Defined.

Lemma second_embedding_number_greater_witness :
  exists N',
    Embedder.newObjNum
      (firstn 46 (classic_pdf "20")
         ++ @Embedder.newObject Stored.runtime (Int 21) (Stored.deflate jpeg_payload)
         ++ skipn 46 (classic_pdf "20"))
    = Int N' /\ 21 < N'.
Proof.
  apply (@second_embedding_number_greater Stored.runtime stored_number_laws
           (classic_pdf "20") jpeg_payload 21).
  - vm_compute. reflexivity.
  - lia.
  - intros a k Hnum. apply Z.le_lt_trans with 21; [|lia].
    apply (maxObjNum_bound _ 21); [vm_compute; reflexivity | lia | exact Hnum].
Defined.

(** ** Extraction reads no further than the first end marker *)

Section PrefixOnly.
Context `{Runtime}.

Lemma first_occurrence_shared_prefix (needle X Y1 Y2 : buffer) (from r : nat) :
  first_occurrence needle (X ++ Y1) from r ->
  (r + length needle <= length X)%nat ->
  first_occurrence needle (X ++ Y2) from r.
Proof.
  intros (Hle & Hocc & Hmin) Hr. split; [assumption|]. split.
  - apply occurs_at_app_inside; [assumption|].
    now apply occurs_at_app_inside in Hocc.
  - intros q Hq Hq'. apply (Hmin q Hq).
    apply occurs_at_app_inside; [lia|].
    apply occurs_at_app_inside in Hq'; [assumption | lia].
Qed.

Lemma indexOf_found (buf needle : buffer) (from : nat) :
  needle <> [] -> indexOf buf needle (Z.of_nat from) <> -1 ->
  exists p, indexOf buf needle (Z.of_nat from) = Z.of_nat p /\
            first_occurrence needle buf from p.
Proof.
  intros Hne Hf.
  destruct (indexOf_inv buf needle from Hne) as [[E _] | Hp];
    [contradiction | exact Hp].
Qed.

Lemma final_extract_shared_prefix (X Y1 Y2 : buffer) :
  Extractor.boundaries_missing (X ++ Y1) = false ->
  indexOf (X ++ Y1) (bytes "stream" ++ [LF]) (Extractor.obj111Start (X ++ Y1))
  <> -1 ->
  Extractor.endstreamPos (X ++ Y1)
    (Extractor.streamStart (X ++ Y1) (Extractor.obj111Start (X ++ Y1))) + 10
  <= len X ->
  Extractor.final_extract (X ++ Y2) = Extractor.final_extract (X ++ Y1).
Proof.
  intros Hb Hs He.
  assert (Hb' := Hb). unfold Extractor.boundaries_missing in Hb'.
  apply orb_false_iff in Hb' as (Hb' & Hbe).
  apply orb_false_iff in Hb' as (Hbo & _).
  apply Z.eqb_neq in Hbo, Hbe.
  destruct (indexOf_found (X ++ Y1) (bytes "111 0 obj") O ltac:(discriminate) Hbo)
    as (o & Eo & Ho).
  change (Extractor.obj111Start (X ++ Y1) = Z.of_nat o) in Eo.
  rewrite Eo in Hs, Hbe, He.
  destruct (indexOf_found (X ++ Y1) (bytes "stream" ++ [LF]) o
              ltac:(discriminate) Hs) as (i & Ei & Hi).
  unfold Extractor.streamStart in Hbe, He. rewrite Ei in Hbe, He.
  replace (Z.of_nat i + 7) with (Z.of_nat (i + 7)) in Hbe, He by lia.
  destruct (indexOf_found (X ++ Y1) ([LF] ++ bytes "endstream") (i + 7)
              ltac:(discriminate) Hbe) as (e & Ee & Hend).
  unfold Extractor.endstreamPos in He. rewrite Ee in He. unfold len in He.
  assert (Hoi : (o <= i)%nat) by apply Hi.
  assert (Hie : (i + 7 <= e)%nat) by apply Hend.
  (* the three landmarks, in either buffer *)
  assert (L : forall Y,
             first_occurrence (bytes "111 0 obj") (X ++ Y) 0 o ->
             first_occurrence (bytes "stream" ++ [LF]) (X ++ Y) o i ->
             first_occurrence ([LF] ++ bytes "endstream") (X ++ Y) (i + 7) e ->
             Extractor.final_extract (X ++ Y)
             = Extractor.decode (firstn (e - (i + 7)) (skipn (i + 7) X))).
  { intros Y Fo Fi Fe.
    assert (Eo' : Extractor.obj111Start (X ++ Y) = Z.of_nat o)
      by (apply (indexOf_first _ _ O); [discriminate | exact Fo]).
    assert (Ei' : Extractor.streamStart (X ++ Y) (Z.of_nat o) = Z.of_nat (i + 7)).
    { unfold Extractor.streamStart.
      rewrite (indexOf_first _ _ o i); [lia | discriminate | exact Fi]. }
    assert (Ee' : Extractor.endstreamPos (X ++ Y) (Z.of_nat (i + 7)) = Z.of_nat e)
      by (apply indexOf_first; [discriminate | exact Fe]).
    unfold Extractor.final_extract, Extractor.boundaries_missing,
      Extractor.streamData.
    rewrite Eo', Ei', Ee'.
    destruct (Z.eqb_spec (Z.of_nat o) (-1)); [lia|].
    destruct (Z.eqb_spec (Z.of_nat (i + 7)) (-1)); [lia|].
    destruct (Z.eqb_spec (Z.of_nat e) (-1)); [lia|].
    simpl orb. cbv iota. f_equal.
    rewrite subarray_in_range by (rewrite length_app; lia).
    rewrite skipn_app, firstn_app, length_skipn.
    replace (i + 7 - length X)%nat with O by lia.
    replace (e - (i + 7) - (length X - (i + 7)))%nat with O by lia.
    simpl. apply app_nil_r. }
  rewrite (L Y1 Ho Hi Hend).
  apply L; eapply first_occurrence_shared_prefix; try eassumption;
    simpl length; lia.
Qed.

(** X15.  When the three landmarks are found and lie within a prefix
    [X] of the buffer, the run depends on [X] alone: whatever follows
    [X] may be replaced without changing what is reported and written. *)
Theorem extraction_reads_prefix_only (X Y1 Y2 : buffer) :
  Extractor.boundaries_missing (X ++ Y1) = false ->
  indexOf (X ++ Y1) (bytes "stream" ++ [LF]) (Extractor.obj111Start (X ++ Y1))
  <> -1 ->
  Extractor.endstreamPos (X ++ Y1)
    (Extractor.streamStart (X ++ Y1) (Extractor.obj111Start (X ++ Y1))) + 10
  <= len X ->
  Extractor.final_extract (X ++ Y2) = Extractor.final_extract (X ++ Y1).
Proof. apply final_extract_shared_prefix. Qed.

(** X16.  When the input already holds an object 111 whose stream lies
    wholly before the [xref] table, embedding changes nothing for the
    extractor: on the output it reports and writes what it does on the
    input, the stream of that object and not the embedded payload. *)
Theorem embedding_keeps_existing_object_111
    (pdfData imageData : buffer) (n : number) (out : buffer) :
  Embedder.embedImageInPDF pdfData imageData = Embedder.Written n out ->
  Extractor.boundaries_missing pdfData = false ->
  indexOf pdfData (bytes "stream" ++ [LF]) (Extractor.obj111Start pdfData) <> -1 ->
  Extractor.endstreamPos pdfData
    (Extractor.streamStart pdfData (Extractor.obj111Start pdfData)) + 10
  <= Embedder.xrefPos pdfData ->
  Extractor.final_extract out = Extractor.final_extract pdfData.
Proof.
  intros Hw Hb Hs He.
  destruct (embed_written_inv _ _ _ _ Hw) as (p & Hp & Hle & _ & ->).
  destruct (embed_at_first_xref pdfData imageData p Hp) as (Ex & _ & _).
  rewrite Ex in He.
  pose proof (final_extract_shared_prefix (firstn p pdfData) (skipn p pdfData)
                (Embedder.newObject n (deflateSync imageData) ++ skipn p pdfData))
    as G.
  rewrite (firstn_skipn p pdfData) in G. apply G; auto.
  unfold len. rewrite length_firstn. lia.
Qed.

End PrefixOnly.

Lemma extraction_reads_prefix_only_witness :
  @Extractor.final_extract Stored.runtime (hidden_jpeg_pdf ++ bytes "xref")
  = @Extractor.final_extract Stored.runtime (hidden_jpeg_pdf ++ []).
Proof.
  apply (@extraction_reads_prefix_only Stored.runtime hidden_jpeg_pdf []
           (bytes "xref")).
  - vm_compute. reflexivity.
  - vm_compute. discriminate.
  - vm_compute. discriminate.
Defined.

(** A PDF that already holds an object 111 with a stream (and an object
    112), and the file the embedder makes of it. *)
Definition pdf_with_object_111 : buffer :=
  bytes "%PDF-1.4" ++ [LF] ++ hidden_jpeg_pdf
    ++ bytes "112 0 obj" ++ [LF] ++ bytes "<< >>" ++ [LF] ++ bytes "endobj" ++ [LF]
    ++ bytes "xref" ++ [LF] ++ bytes "trailer" ++ [LF].

Definition pdf_with_object_111_embedded : buffer :=
  Embedder.newPdfData pdf_with_object_111
    (@Embedder.newObject Stored.runtime (Int 113) (Stored.deflate [xff; xd8; x00]))
    (Embedder.xrefPos pdf_with_object_111).

Lemma embedding_keeps_existing_object_111_witness :
  @Extractor.final_extract Stored.runtime pdf_with_object_111_embedded
  = @Extractor.final_extract Stored.runtime pdf_with_object_111.
Proof.
  apply (@embedding_keeps_existing_object_111 Stored.runtime
           pdf_with_object_111 [xff; xd8; x00] (Int 113)).
  - vm_compute. reflexivity.
  - vm_compute. reflexivity.
  - vm_compute. discriminate.
  - vm_compute. discriminate.
Defined.

(** ** Where the payload lies in the output *)

Section PayloadLocation.
Context `{Runtime}.

(** X17.  Whatever number the object gets, the compressed payload lies
    in the output right after the header of the new object, which starts
    at the offset the input had its [xref] at; the bytes sliced there
    inflate to the image that was embedded. *)
Theorem embedded_payload_recoverable `{!ZlibLaws}
    (pdfData imageData : buffer) (n : number) (out : buffer) :
  Embedder.embedImageInPDF pdfData imageData = Embedder.Written n out ->
  let start := Embedder.xrefPos pdfData
               + len (Embedder.objHeader n (deflateSync imageData)) in
  subarray out start (start + len (deflateSync imageData)) = deflateSync imageData /\
  inflateSync (subarray out start (start + len (deflateSync imageData)))
  = Some imageData.
Proof.
  intros Hw start.
  destruct (embed_written_inv _ _ _ _ Hw) as (p & Hp & Hle & _ & ->).
  destruct (embed_at_first_xref pdfData imageData p Hp) as (Ex & _ & _).
  set (c := deflateSync imageData) in *.
  set (hdr := Embedder.objHeader n c) in *.
  assert (Lf : length (firstn p pdfData) = p) by (rewrite length_firstn; lia).
  assert (Es : start = Z.of_nat (length (firstn p pdfData ++ hdr))).
  { unfold start. rewrite Ex, length_app, Lf. unfold len. lia. }
  assert (Eslice :
            subarray (firstn p pdfData ++ Embedder.newObject n c ++ skipn p pdfData)
              start (start + len c) = c).
  { rewrite Es. unfold len.
    replace (Z.of_nat (length (firstn p pdfData ++ hdr)) + Z.of_nat (length c))
      with (Z.of_nat (length (firstn p pdfData ++ hdr) + length c)) by lia.
    rewrite subarray_in_range.
    - unfold Embedder.newObject. fold hdr.
      replace (firstn p pdfData ++ (hdr ++ c ++ Embedder.objFooter) ++ skipn p pdfData)
        with ((firstn p pdfData ++ hdr) ++ c ++ Embedder.objFooter ++ skipn p pdfData)
        by (repeat rewrite <- app_assoc; reflexivity).
      rewrite skipn_app, skipn_all, Nat.sub_diag. cbn [skipn app].
      replace (length (firstn p pdfData ++ hdr) + length c
               - length (firstn p pdfData ++ hdr))%nat with (length c) by lia.
      rewrite firstn_app, firstn_all, Nat.sub_diag. cbn [firstn].
      apply app_nil_r.
    - unfold Embedder.newObject. fold hdr. rewrite !length_app. lia. }
  split; [exact Eslice|]. rewrite Eslice. apply inflate_deflate.
Qed.

End PayloadLocation.

Lemma embedded_payload_recoverable_witness :
  let out := firstn 46 (classic_pdf "20")
               ++ @Embedder.newObject Stored.runtime (Int 21)
                    (Stored.deflate jpeg_payload)
               ++ skipn 46 (classic_pdf "20") in
  let start := Embedder.xrefPos (classic_pdf "20")
               + len (@Embedder.objHeader Stored.runtime (Int 21)
                        (@deflateSync Stored.runtime jpeg_payload)) in
  subarray out start (start + len (@deflateSync Stored.runtime jpeg_payload))
  = @deflateSync Stored.runtime jpeg_payload /\
  @inflateSync Stored.runtime
    (subarray out start (start + len (@deflateSync Stored.runtime jpeg_payload)))
  = Some jpeg_payload.
Proof.
  apply (@embedded_payload_recoverable Stored.runtime stored_zlib_laws
           (classic_pdf "20") jpeg_payload (Int 21)).
  vm_compute. reflexivity.
Defined.

(* ================================================================== *)
(** * Part VII.  Object declarations and the literal the extractor uses *)
(* ================================================================== *)

(** A declaration of an object: a whole run of digits (no digit just
    before it) followed by [" 0 obj"]. *)
Definition declared_at (s : buffer) (a k : nat) : Prop :=
  numbered_at s a k /\ RegexFacts.run_start s a.

(** A PDF whose only object is number 1111, with a stream. *)
Definition only_object_1111_pdf : buffer :=
  bytes "1111 0 obj" ++ [LF] ++ bytes "<< >>" ++ [LF]
    ++ bytes "stream" ++ [LF] ++ bytes "hello"
    ++ [LF] ++ bytes "endstream" ++ [LF] ++ bytes "endobj" ++ [LF].

(** C7 as stated fails: this buffer declares the object 1111 and no
    other, so it holds no declaration of object 111; yet the text
    ["111 0 obj"] is found at offset 1, inside the number, the check of
    line 41 passes, the stream of object 1111 is written to
    [raw_stream.bin] and the run ends normally. *)
Lemma object_1111_taken_for_111 :
  (forall a k, declared_at only_object_1111_pdf a k ->
               a = O /\ object_number only_object_1111_pdf a k = 1111) /\
  Extractor.obj111Start only_object_1111_pdf = 1 /\
  @Extractor.final_extract Stored.runtime only_object_1111_pdf
  = {| Extractor.console := [Extractor.NotZlibCompressed];
       Extractor.files := [("raw_stream.bin"%string, bytes "hello")];
       Extractor.ending := Extractor.Completed |}.
Proof.
  split; [|split; vm_compute; reflexivity].
  intros a k ((Hk & _ & Hocc) & Hs).
  assert (Hq : (a + k)%nat = 4%nat).
  { assert (E4 : indexOf only_object_1111_pdf obj_literal (Z.of_nat 0) = 4)
      by (vm_compute; reflexivity).
    destruct (indexOf_inv only_object_1111_pdf obj_literal O ltac:(discriminate))
      as [[E _] | (p & Ep & _ & _ & Hmin)]; [rewrite E4 in E; discriminate|].
    rewrite E4 in Ep. assert (p = 4%nat) as -> by lia.
    assert (Ha : absent_from obj_literal only_object_1111_pdf 5)
      by (apply indexOf_minus1_absent; [discriminate | vm_compute; reflexivity]).
    destruct (Nat.lt_trichotomy (a + k) 4) as [L | [E | G]]; [|exact E|].
    - exfalso. exact (Hmin (a + k)%nat ltac:(lia) Hocc).
    - exfalso. exact (Ha (a + k)%nat ltac:(lia) Hocc). }
  destruct a as [|a].
  - assert (k = 4%nat) as -> by lia. split; [reflexivity | vm_compute; reflexivity].
  - exfalso. simpl in Hs.
    assert (Hd : nth_error only_object_1111_pdf a = Some "1"%byte)
      by (do 3 (destruct a as [|a]; [reflexivity|]); lia).
    specialize (Hs _ Hd). discriminate.
Qed.

Section FixedLiteral.
Context `{Runtime}.



End FixedLiteral.


(** An object number of 310 digits: [parseInt] gives [Infinity], and so
    is the number assigned. *)
Remark new_object_number_infinite :
  Embedder.newObjNum
    (bytes "1" ++ repeat "0"%byte 309 ++ bytes " 0 obj" ++ [LF] ++ bytes "xref")
  = Infinity.
Proof. vm_compute. reflexivity. Qed.
